(** * GamblShield Discovery: registry merge, status toggle, log buffer,
      discovery service and autonomous loop

    A shallow embedding of [src/types.ts], of the discovery service
    ([performDiscovery]) and of the state logic of [src/App.tsx], followed
    by the properties proved about them.

    Conventions of the embedding.
    - A JavaScript string is a [string]; a character stands for one code
      unit below 256.
    - A JavaScript number that the program only counts with
      ([autoCycleCount], [nextCycleCountdown], [source_count]) is a [Z];
      a number that comes out of the parsed response is a [float].
    - TypeScript's types are erased at run time: the two fields that
      [performDiscovery] copies from the parsed response without touching
      them ([site_name], [confidence_score]) hold a [JSValue].
    - What the environment decides ([new Date()], [Math.random()], the
      answer of the remote model, [JSON.parse]) is an input of the
      function that uses it. *)

From Stdlib Require Import List String Ascii Bool ZArith Lia DecimalString.
From Stdlib Require Import Floats.PrimFloat.
Import ListNotations.
Local Open Scope string_scope.
Local Open Scope Z_scope.

Set Implicit Arguments.

(** ** JavaScript values and strings *)

(** The values [JSON.parse] can produce, and [undefined] for a missing
    property.  [JObj] lists the own properties of the object, every name
    once. *)
#[local] Set Warnings "-register-all".
Inductive JSValue : Type :=
| JUndefined
| JNull
| JBool (b : bool)
| JNum (x : float)
| JStr (s : string)
| JArr (items : list JSValue)
| JObj (props : list (string * JSValue)).

Module JSString.

Definition code (c : ascii) : nat := nat_of_ascii c.

Definition between (lo hi : nat) (c : ascii) : bool :=
  (Nat.leb lo (code c) && Nat.leb (code c) hi)%bool.

(** [a-z] and [0-9], the characters the regular expression
    [/[^a-z0-9]/g] leaves in place. *)
Definition is_lower (c : ascii) : bool := between 97 122 c.
Definition is_digit (c : ascii) : bool := between 48 57 c.
Definition is_a_z_0_9 (c : ascii) : bool := (is_lower c || is_digit c)%bool.

(** Letters with a lower-case partner among the code units below 256:
    [A-Z], and the Latin-1 capitals U+00C0..U+00DE without the
    multiplication sign U+00D7. *)
Definition is_upper (c : ascii) : bool :=
  (between 65 90 c
   || (between 192 222 c && negb (Nat.eqb (code c) 215)))%bool.

Definition lower_char (c : ascii) : ascii :=
  if is_upper c then ascii_of_nat (code c + 32) else c.

(** [s.toLowerCase()] *)
Fixpoint toLowerCase (s : string) : string :=
  match s with
  | EmptyString => EmptyString
  | String c r => String (lower_char c) (toLowerCase r)
  end.

(** [s.replace(/[^a-z0-9]/g, '')] *)
Fixpoint strip_non_a_z_0_9 (s : string) : string :=
  match s with
  | EmptyString => EmptyString
  | String c r =>
      if is_a_z_0_9 c then String c (strip_non_a_z_0_9 r)
      else strip_non_a_z_0_9 r
  end.

(** White space and line terminators of ECMAScript below 256: TAB, LF,
    VT, FF, CR, SP and NBSP. *)
Definition is_space (c : ascii) : bool :=
  (between 9 13 c || Nat.eqb (code c) 32 || Nat.eqb (code c) 160)%bool.

(** [!s.trim()]: the trimmed string is empty exactly when every
    character is white space. *)
Fixpoint blank (s : string) : bool :=
  match s with
  | EmptyString => true
  | String c r => (is_space c && blank r)%bool
  end.

(** [s.split('.')[0]] *)
Fixpoint before_dot (s : string) : string :=
  match s with
  | EmptyString => EmptyString
  | String c r =>
      if Ascii.eqb c "."%char then EmptyString else String c (before_dot r)
  end.

(** Every character of [s] satisfies [p]. *)
Fixpoint all_chars (p : ascii -> bool) (s : string) : bool :=
  match s with
  | EmptyString => true
  | String c r => (p c && all_chars p r)%bool
  end.

End JSString.

(** ** [src/types.ts] *)

Inductive SiteStatus : Type :=
| ACTIVE
| FLAGGED
| FALSE_POSITIVE.

Definition SiteStatus_eqb (a b : SiteStatus) : bool :=
  match a, b with
  | ACTIVE, ACTIVE | FLAGGED, FLAGGED | FALSE_POSITIVE, FALSE_POSITIVE => true
  | _, _ => false
  end.

Record GamblingSite : Type := mkSite {
  id : string;
  site_name : JSValue;
  normalized_name : string;
  first_seen : string;
  last_seen : string;
  confidence_score : JSValue;
  status : SiteStatus;
  source_count : Z;
  sources : list string
}.

Inductive LogType : Type :=
| info
| success
| warning
| error.

Record AgentLog : Type := mkLog {
  timestamp : string;
  message : string;
  type : LogType
}.

(** ** The JavaScript [Map], as far as the program uses it

    A [Map] remembers its keys in the order of their first insertion;
    setting a key that is present replaces the value where it stands. *)
Module JSMap.
Section WithValue.
Variable V : Type.

Definition t : Type := list (string * V).

(** [m.set(k, v)] *)
Fixpoint set (k : string) (v : V) (m : t) : t :=
  match m with
  | [] => [(k, v)]
  | (k', v') :: m' =>
      if String.eqb k k' then (k, v) :: m' else (k', v') :: set k v m'
  end.

(** [new Map(entries)] *)
Definition of_entries (entries : list (string * V)) : t :=
  fold_left (fun m e => set (fst e) (snd e) m) entries [].

(** [Array.from(m.values())] *)
Definition values (m : t) : list V := map snd m.

Definition keys (m : t) : list string := map fst m.

(** [m.get(k)] *)
Fixpoint get (k : string) (m : t) : option V :=
  match m with
  | [] => None
  | (k', v') :: m' => if String.eqb k k' then Some v' else get k m'
  end.

(** The value of the last of [entries] whose key is [k]. *)
Fixpoint last_value (k : string) (entries : list (string * V)) : option V :=
  match entries with
  | [] => None
  | (k', v') :: r =>
      match last_value k r with
      | Some v => Some v
      | None => if String.eqb k k' then Some v' else None
      end
  end.

(** Every entry of [m] stands under the key that [key] reads off its
    value. *)
Definition keyed (key : V -> string) (m : t) : Prop :=
  Forall (fun e => fst e = key (snd e)) m.
End WithValue.
End JSMap.

(** ** The discovery service ([performDiscovery]) *)

(** What a rejected promise or a [throw] carries, as far as
    [error instanceof Error ? error.message : 'Unknown error'] tells
    values apart. *)
Inductive Thrown : Type :=
| ErrorObject (msg : string)
| OtherValue.

(** The part of the service's response the program reads. *)
Record Web : Type := mkWeb { uri : option string }.
Record GroundingChunk : Type := mkChunk { web : option Web }.
Record GroundingMetadata : Type := mkMeta {
  groundingChunks : option (list GroundingChunk)
}.
Record Candidate : Type := mkCandidate {
  groundingMetadata : option GroundingMetadata
}.
Record GenerateContentResponse : Type := mkResponse {
  candidates : option (list Candidate);
  text : option string
}.

(** How [await ai.models.generateContent(...)] ends. *)
Inductive ServiceReply : Type :=
| Answer (response : GenerateContentResponse)
| Failure (e : Thrown).

(** How [await performDiscovery(...)] ends. *)
Inductive DiscoveryOutcome : Type :=
| Resolved (newSites : list GamblingSite) (srcs : list string)
| Rejected (e : Thrown).

(** What one call of [performDiscovery] reads from its environment:
    [new Date().toISOString()], the two [Math.random()] draws made for the
    element at each index (the identifier string, and the draw that
    [Math.floor(r * 5)] turns into one of 0..4), and the message the engine
    puts in a [TypeError]. *)
Record ServiceEnv : Type := mkServiceEnv {
  iso_now : string;
  random_id : nat -> string;
  random_draw : nat -> Z;
  type_error_message : string
}.

Module Service.

(** [xs.join(sep)] *)
Fixpoint join (sep : string) (xs : list string) : string :=
  match xs with
  | [] => ""
  | [x] => x
  | x :: r => x ++ sep ++ join sep r
  end.

Definition contextInstruction (knownPatterns : list string) : string :=
  if Nat.ltb 0 (List.length knownPatterns) then
    "

CONTEXTUAL KNOWLEDGE: We already know these patterns: ["
    ++ join ", " (firstn 20 knownPatterns)
    ++ "]. 
       Focus on finding NEW variations, different TLDs, or obfuscated versions of these, as well as entirely new platforms."
  else "".

(** The [contents] of the request. *)
Definition contents (query : string) (knownPatterns : list string) : string :=
  "Search for and extract gambling website names and identifiers commonly seen in live stream chat spam or donation messages in Indonesia. 
    Focus on specific brand names or domain-like strings (e.g., brandname.com, brandnamevip).
    Current Query: " ++ query ++ contextInstruction knownPatterns ++ "
    
    Rules:
    1. Extract the primary brand/site name.
    2. Normalize it (lowercase, no symbols).
    3. Assign a confidence score (0.0 - 1.0) based on how clearly it appears as a gambling platform.
    4. Provide the current timestamp.".

(** [chunk.web?.uri] *)
Definition chunk_uri (chunk : GroundingChunk) : option string :=
  match web chunk with
  | Some w => uri w
  | None => None
  end.

(** [xs.filter(Boolean)]: [undefined] and the empty string are dropped. *)
Fixpoint filter_Boolean (xs : list (option string)) : list string :=
  match xs with
  | [] => []
  | Some (String c r) :: rest => String c r :: filter_Boolean rest
  | _ :: rest => filter_Boolean rest
  end.

(** [response.candidates?.[0]?.groundingMetadata?.groundingChunks
      ?.map(chunk => chunk.web?.uri).filter(Boolean) || []] *)
Definition grounding_sources (response : GenerateContentResponse)
  : list string :=
  match candidates response with
  | Some (c :: _) =>
      match groundingMetadata c with
      | Some gm =>
          match groundingChunks gm with
          | Some chunks => filter_Boolean (map chunk_uri chunks)
          | None => []
          end
      | None => []
      end
  | _ => []
  end.

(** The own property [name] of an object, [undefined] when it has none. *)
Fixpoint own_property (name : string) (props : list (string * JSValue))
  : JSValue :=
  match props with
  | [] => JUndefined
  | (k, v) :: r => if String.eqb name k then v else own_property name r
  end.

(** [v.name] for a value that came out of [JSON.parse] and a name that no
    prototype defines; [None] is the [TypeError] of reading a property of
    [null] or [undefined]. *)
Definition get_prop (v : JSValue) (name : string) : option JSValue :=
  match v with
  | JUndefined | JNull => None
  | JObj props => Some (own_property name props)
  | _ => Some JUndefined
  end.

(** The string handed to [JSON.parse]: [undefined] is converted to the
    text [undefined]. *)
Definition text_argument (response : GenerateContentResponse) : string :=
  match text response with
  | Some t => t
  | None => "undefined"
  end.

(** [site.normalized_name.toLowerCase().replace(/[^a-z0-9]/g, '')] applied
    to a string. *)
Definition normalize (raw : string) : string :=
  JSString.strip_non_a_z_0_9 (JSString.toLowerCase raw).

(** The callback of [result.extracted_sites.map], for the element at index
    [i]; [None] is a [TypeError]. *)
Definition site_of (env : ServiceEnv) (srcs : list string) (i : nat)
  (site : JSValue) : option GamblingSite :=
  match get_prop site "site_name" with
  | None => None
  | Some name =>
      match get_prop site "normalized_name" with
      | Some (JStr raw) =>
          match get_prop site "confidence_score" with
          | None => None
          | Some score =>
              Some {| id := random_id env i;
                      site_name := name;
                      normalized_name := normalize raw;
                      first_seen := iso_now env;
                      last_seen := iso_now env;
                      confidence_score := score;
                      status := ACTIVE;
                      source_count := random_draw env i mod 5 + 1;
                      sources := firstn 3 srcs |}
          end
      | _ => None
      end
  end.

(** [items.map(callback)] from index [i] on; the first [TypeError] ends
    it. *)
Fixpoint map_sites (env : ServiceEnv) (srcs : list string) (i : nat)
  (items : list JSValue) : option (list GamblingSite) :=
  match items with
  | [] => Some []
  | site :: rest =>
      match site_of env srcs i site with
      | None => None
      | Some s =>
          match map_sites env srcs (S i) rest with
          | None => None
          | Some ss => Some (s :: ss)
          end
      end
  end.

Section WithParser.

(** [JSON.parse]; [None] is its [SyntaxError]. *)
Variable JSON_parse : string -> option JSValue.

(** The [try { result = JSON.parse(response.text) } catch] block. *)
Definition parsed_result (response : GenerateContentResponse) : JSValue :=
  match JSON_parse (text_argument response) with
  | Some result => result
  | None => JObj [("extracted_sites", JArr [])]
  end.

(** [performDiscovery(query, knownPatterns)].  [generateContent] says how
    the service would answer each request at this call. *)
Definition performDiscovery (generateContent : string -> ServiceReply)
  (env : ServiceEnv) (query : string) (knownPatterns : list string)
  : DiscoveryOutcome :=
  match generateContent (contents query knownPatterns) with
  | Failure e => Rejected e
  | Answer response =>
      let srcs := grounding_sources response in
      let result := parsed_result response in
      match get_prop result "extracted_sites" with
      | Some (JArr items) =>
          match map_sites env srcs 0 items with
          | Some sites => Resolved sites srcs
          | None => Rejected (ErrorObject (type_error_message env))
          end
      | _ => Rejected (ErrorObject (type_error_message env))
      end
  end.

End WithParser.
End Service.

(** ** The component state of [src/App.tsx] *)

Record State : Type := mkState {
  sites : list GamblingSite;
  logs : list AgentLog;
  isSearching : bool;
  isAnalyzing : bool;
  isAutonomous : bool;
  searchQuery : string;
  isCopied : bool;
  autoCycleCount : Z;
  nextCycleCountdown : Z
}.

(** A call of [handleDiscovery] that is suspended at one of its two
    [await]s, with the values its closure holds. *)
Inductive Await : Type :=
| Timeout1000
| Discovery.

Record InFlight : Type := mkInFlight {
  queryToUse : string;
  knownPatterns : list string;
  closure_isAutonomous : bool;
  awaiting : Await
}.

Module App.

Definition initial : State :=
  {| sites := [];
     logs := [];
     isSearching := false;
     isAnalyzing := false;
     isAutonomous := false;
     searchQuery := "situs slot gacor terbaru 2024";
     isCopied := false;
     autoCycleCount := 0;
     nextCycleCountdown := 0 |}.

(** The state setters; each takes the updater form [prev => ...]. *)
Definition setSites (f : list GamblingSite -> list GamblingSite)
  (st : State) : State :=
  mkState (f (sites st)) (logs st) (isSearching st) (isAnalyzing st)
    (isAutonomous st) (searchQuery st) (isCopied st) (autoCycleCount st)
    (nextCycleCountdown st).

Definition setLogs (f : list AgentLog -> list AgentLog) (st : State)
  : State :=
  mkState (sites st) (f (logs st)) (isSearching st) (isAnalyzing st)
    (isAutonomous st) (searchQuery st) (isCopied st) (autoCycleCount st)
    (nextCycleCountdown st).

Definition setIsSearching (b : bool) (st : State) : State :=
  mkState (sites st) (logs st) b (isAnalyzing st) (isAutonomous st)
    (searchQuery st) (isCopied st) (autoCycleCount st)
    (nextCycleCountdown st).

Definition setIsAnalyzing (b : bool) (st : State) : State :=
  mkState (sites st) (logs st) (isSearching st) b (isAutonomous st)
    (searchQuery st) (isCopied st) (autoCycleCount st)
    (nextCycleCountdown st).

Definition setIsAutonomous (b : bool) (st : State) : State :=
  mkState (sites st) (logs st) (isSearching st) (isAnalyzing st) b
    (searchQuery st) (isCopied st) (autoCycleCount st)
    (nextCycleCountdown st).

Definition setSearchQuery (q : string) (st : State) : State :=
  mkState (sites st) (logs st) (isSearching st) (isAnalyzing st)
    (isAutonomous st) q (isCopied st) (autoCycleCount st)
    (nextCycleCountdown st).

Definition setAutoCycleCount (f : Z -> Z) (st : State) : State :=
  mkState (sites st) (logs st) (isSearching st) (isAnalyzing st)
    (isAutonomous st) (searchQuery st) (isCopied st)
    (f (autoCycleCount st)) (nextCycleCountdown st).

Definition setNextCycleCountdown (f : Z -> Z) (st : State) : State :=
  mkState (sites st) (logs st) (isSearching st) (isAnalyzing st)
    (isAutonomous st) (searchQuery st) (isCopied st) (autoCycleCount st)
    (f (nextCycleCountdown st)).

(** The double quote character, and a number inside a template literal. *)
Definition dquote : string := String (ascii_of_nat 34) EmptyString.
Definition quoted (s : string) : string := dquote ++ s ++ dquote.
Definition show (n : Z) : string := NilZero.string_of_int (Z.to_int n).
Definition count {A : Type} (xs : list A) : Z := Z.of_nat (List.length xs).

(** [addLog(message, type)]; [now] is [new Date().toLocaleTimeString()]. *)
Definition addLog (now message : string) (type : LogType) (st : State)
  : State :=
  setLogs (fun prev => firstn 50 (mkLog now message type :: prev)) st.

(** The registry computed by the updater of [setSites] in
    [handleDiscovery]:
    [Array.from(new Map(combined.map(item =>
       [item.normalized_name, item])).values())]. *)
Definition unique_sites (newSites prev : list GamblingSite)
  : list GamblingSite :=
  let combined := (newSites ++ prev)%list in
  JSMap.values
    (JSMap.of_entries (map (fun item => (normalized_name item, item))
                           combined)).

(** [setSites(prev => { ... return unique; })], with the [addLog] the
    updater makes. *)
Definition merge_discovered (now : string) (newSites : list GamblingSite)
  (st : State) : State :=
  let prev := sites st in
  let unique := unique_sites newSites prev in
  let newCount := count unique - count prev in
  let st := setSites (fun _ => unique) st in
  if 0 <? newCount then
    addLog now ("Learned " ++ show newCount ++ " new unique site signatures.")
      success st
  else
    addLog now "No new unique signatures found in this cycle." warning st.

Definition startCountdown (st : State) : State :=
  setNextCycleCountdown (fun _ => 15) st.

(** [customQuery || searchQuery] *)
Definition query_or (customQuery : option string) (fallback : string)
  : string :=
  match customQuery with
  | Some (String c r) => String c r
  | _ => fallback
  end.

(** [handleDiscovery(customQuery)] up to
    [await new Promise(r => setTimeout(r, 1000))].  The closure reads the
    state of the render the handler belongs to, which is the state the
    handler is started in. *)
Definition handleDiscovery_begin (now : string) (customQuery : option string)
  (st : State) : State * option InFlight :=
  let query := query_or customQuery (searchQuery st) in
  if (JSString.blank query || isSearching st)%bool then (st, None)
  else
    let known := map normalized_name (sites st) in
    let st1 := setIsSearching true st in
    let st2 := setIsAnalyzing true st1 in
    let st3 :=
      addLog now "Analyzing current registry for existing patterns..." info
        st2 in
    let st4 :=
      if 0 <? count known then
        addLog now ("Knowledge base primed with " ++ show (count known)
                    ++ " existing entries.") success st3
      else st3 in
    (st4, Some (mkInFlight query known (isAutonomous st) Timeout1000)).

(** From the end of the timeout to [await performDiscovery(...)]. *)
Definition handleDiscovery_search (now : string) (t : InFlight) (st : State)
  : State :=
  addLog now ("Initiating context-aware search for: "
              ++ quoted (queryToUse t)) info
    (setIsAnalyzing false st).

(** [error instanceof Error ? error.message : 'Unknown error'] *)
Definition error_text (e : Thrown) : string :=
  match e with
  | ErrorObject msg => msg
  | OtherValue => "Unknown error"
  end.

(** The [try] block after the [await], or the [catch] block.  The
    updater handed to [setSites] runs when React processes the update,
    after the calls that follow it in the block have queued theirs; so
    the entry the updater logs is the newest of the cycle. *)
Definition handleDiscovery_outcome (now : string) (t : InFlight)
  (outcome : DiscoveryOutcome) (st : State) : State :=
  match outcome with
  | Resolved newSites srcs =>
      let st1 :=
        if 0 <? count srcs then
          addLog now ("Successfully indexed " ++ show (count srcs)
                      ++ " public sources.") success st
        else st in
      let st2 := addLog now "Discovery cycle complete." success st1 in
      let st3 :=
        if closure_isAutonomous t then
          startCountdown (setAutoCycleCount (fun c => c + 1) st2)
        else st2 in
      merge_discovered now newSites st3
  | Rejected e =>
      let st1 :=
        addLog now ("Error during discovery: " ++ error_text e) error st in
      if closure_isAutonomous t then startCountdown st1 else st1
  end.

(** The rest of [handleDiscovery] once [performDiscovery] has settled,
    with the [finally] block. *)
Definition handleDiscovery_settle (now : string) (t : InFlight)
  (outcome : DiscoveryOutcome) (st : State) : State :=
  setIsSearching false (handleDiscovery_outcome now t outcome st).

(** [toggleStatus(id)] as the updater of [setSites]. *)
Definition toggleStatus (id0 : string) (prev : list GamblingSite)
  : list GamblingSite :=
  map (fun s =>
         if String.eqb (id s) id0 then
           let nextStatus :=
             if SiteStatus_eqb (status s) ACTIVE then FALSE_POSITIVE
             else ACTIVE in
           mkSite (id s) (site_name s) (normalized_name s) (first_seen s)
             (last_seen s) (confidence_score s) nextStatus (source_count s)
             (sources s)
         else s)
      prev.

(** The record the registry holds under the key [k]: the last one when
    several records share the key. *)
Definition record_of (k : string) (reg : list GamblingSite)
  : option GamblingSite :=
  JSMap.last_value k (map (fun item => (normalized_name item, item)) reg).

(** What holds of every record the application itself creates and keeps:
    it is not FLAGGED and its key is made of [a-z0-9]. *)
Definition app_made (s : GamblingSite) : Prop :=
  status s <> FLAGGED
  /\ JSString.all_chars JSString.is_a_z_0_9 (normalized_name s) = true.

(** The registry under the two operations that write it. *)
Inductive RegistryOp : Type :=
| Discovered (newSites : list GamblingSite)
| Toggled (id0 : string).

Definition apply_op (reg : list GamblingSite) (op : RegistryOp)
  : list GamblingSite :=
  match op with
  | Discovered newSites => unique_sites newSites reg
  | Toggled id0 => toggleStatus id0 reg
  end.

Definition registry_after (ops : list RegistryOp) : list GamblingSite :=
  fold_left apply_op ops [].

End App.

(** ** The component as a transition system

    One step is one thing that happens to the mounted component (a click,
    an edit of the query field, a tick of the countdown interval, the end
    of an [await] of a suspended [handleDiscovery]), followed by the
    autonomous effect of the render that results.  The step in which
    [performDiscovery] settles says how the service answered that call and
    what the call read from its environment.  State updates made in
    one step are applied together.  The export and clipboard buttons,
    which write [logs] and [isCopied] only, are added further down. *)

(** What a step reads from its environment: the clock, and the two
    [Math.random()] draws of the autonomous effect. *)
Record Ambient : Type := mkAmbient {
  now : string;
  pick_site : nat;
  pick_strategy : nat
}.

Inductive Event : Type :=
| ClickAutoMode
| ChangeSearchQuery (q : string)
| ClickManualDiscovery
| ClickToggleStatus (row : nat)
| TimerTick
| TimeoutElapsed (i : nat)
| DiscoverySettled (i : nat) (generateContent : string -> ServiceReply)
    (env : ServiceEnv).

(** The component state, the suspended calls of [handleDiscovery], and two
    histories kept for the statements: the queries the autonomous effect
    handed to [handleDiscovery], and the queries passed to
    [performDiscovery], newest first. *)
Record World : Type := mkWorld {
  ui : State;
  inflight : list InFlight;
  evolved : list string;
  requested : list string
}.

Module Loop.
Import App.

Definition start : World := mkWorld initial [] [] [].

Definition with_ui (st : State) (w : World) : World :=
  mkWorld st (inflight w) (evolved w) (requested w).

(** [xs] without its element at index [i]. *)
Fixpoint remove_at {A : Type} (i : nat) (xs : list A) : list A :=
  match xs, i with
  | [], _ => []
  | _ :: r, O => r
  | x :: r, S j => x :: remove_at j r
  end.

(** [xs] with the element at index [i] replaced. *)
Fixpoint replace_at {A : Type} (i : nat) (y : A) (xs : list A) : list A :=
  match xs, i with
  | [], _ => []
  | _ :: r, O => y :: r
  | x :: r, S j => x :: replace_at j y r
  end.

(** A call of [handleDiscovery] made in world [w]. *)
Definition call_handleDiscovery (a : Ambient) (customQuery : option string)
  (w : World) : World :=
  match handleDiscovery_begin (now a) customQuery (ui w) with
  | (st, Some t) =>
      mkWorld st (inflight w ++ [t])%list (evolved w) (requested w)
  | (st, None) => with_ui st w
  end.

(** The countdown effect holds an interval exactly in these states. *)
Definition interval_running (st : State) : bool :=
  (isAutonomous st && (0 <? nextCycleCountdown st))%bool.

Section WithParser.

(** [JSON.parse]; [None] is its [SyntaxError]. *)
Variable JSON_parse : string -> option JSValue.

(** The event itself; [None] when it cannot happen in [w]: the control is
    not rendered or is disabled, no interval is running, or no suspended
    call waits for it. *)
Definition handle (a : Ambient) (e : Event) (w : World) : option World :=
  let st := ui w in
  match e with
  | ClickAutoMode =>
      let st1 := setIsAutonomous (negb (isAutonomous st)) st in
      Some (with_ui
              (if negb (isAutonomous st) then
                 addLog (now a)
                   "Autonomous Mode ACTIVATED. Agent will now evolve self-queries."
                   warning st1
               else addLog (now a) "Autonomous Mode DEACTIVATED." info st1)
              w)
  | ChangeSearchQuery q =>
      if isAutonomous st then None
      else Some (with_ui (setSearchQuery q st) w)
  | ClickManualDiscovery =>
      if (isAutonomous st || isSearching st)%bool then None
      else Some (call_handleDiscovery a None w)
  | ClickToggleStatus row =>
      match nth_error (sites st) row with
      | Some site => Some (with_ui (setSites (toggleStatus (id site)) st) w)
      | None => None
      end
  | TimerTick =>
      if interval_running st then
        Some (with_ui (setNextCycleCountdown (fun prev => prev - 1) st) w)
      else None
  | TimeoutElapsed i =>
      match nth_error (inflight w) i with
      | Some t =>
          match awaiting t with
          | Timeout1000 =>
              Some (mkWorld (handleDiscovery_search (now a) t st)
                      (replace_at i
                         (mkInFlight (queryToUse t) (knownPatterns t)
                            (closure_isAutonomous t) Discovery)
                         (inflight w))
                      (evolved w)
                      (queryToUse t :: requested w))
          | Discovery => None
          end
      | None => None
      end
  | DiscoverySettled i generateContent env =>
      match nth_error (inflight w) i with
      | Some t =>
          match awaiting t with
          | Discovery =>
              let outcome :=
                Service.performDiscovery JSON_parse generateContent env
                  (queryToUse t) (knownPatterns t) in
              Some (mkWorld (handleDiscovery_settle (now a) t outcome st)
                      (remove_at i (inflight w)) (evolved w) (requested w))
          | Timeout1000 => None
          end
      | None => None
      end
  end.

(** The dependency list [[isAutonomous, isSearching, nextCycleCountdown]]
    compared between two renders. *)
Definition same_deps (before after : State) : bool :=
  (Bool.eqb (isAutonomous before) (isAutonomous after)
   && Bool.eqb (isSearching before) (isSearching after)
   && (nextCycleCountdown before =? nextCycleCountdown after))%bool.

(** The [nextQuery] of the autonomous effect; [None] when building
    [strategies] throws, which is when [randomSite.site_name] has no
    [split] method. *)
Definition next_query (a : Ambient) (st : State) : option string :=
  match sites st with
  | [] => Some (searchQuery st)
  | first :: _ =>
      let randomSite :=
        nth (pick_site a mod List.length (sites st)) (sites st) first in
      match site_name randomSite with
      | JStr name =>
          let strategies :=
            [ "link alternatif " ++ name;
              "situs serupa " ++ name;
              "daftar agen " ++ JSString.before_dot name;
              "promo terbaru " ++ name ] in
          Some (nth (pick_strategy a mod 4) strategies "")
      | _ => None
      end
  end.

(** The autonomous effect of the render that shows [ui w], [before] being
    the state of the previous render.  [None]: the effect throws and the
    component is unmounted. *)
Definition autonomous_effect (a : Ambient) (before : State) (w : World)
  : option World :=
  let st := ui w in
  if same_deps before st then Some w
  else if (isAutonomous st && negb (isSearching st)
           && (nextCycleCountdown st =? 0))%bool then
    match next_query a st with
    | Some nextQuery =>
        let w1 :=
          with_ui (addLog (now a)
                     ("Autonomous trigger: Evolving search based on "
                      ++ quoted nextQuery) info st) w in
        let w2 := call_handleDiscovery a (Some nextQuery) w1 in
        Some (mkWorld (ui w2) (inflight w2) (nextQuery :: evolved w2)
                (requested w2))
    | None => None
    end
  else Some w.

Definition step (a : Ambient) (e : Event) (w : World) : option World :=
  match handle a e w with
  | Some w1 => autonomous_effect a (ui w) w1
  | None => None
  end.

(** A run: the steps of [trace] in order, from [w]. *)
Fixpoint run (trace : list (Ambient * Event)) (w : World) : option World :=
  match trace with
  | [] => Some w
  | (a, e) :: rest =>
      match step a e w with
      | Some w1 => run rest w1
      | None => None
      end
  end.

End WithParser.

Definition is_ClickAutoMode (e : Event) : bool :=
  match e with
  | ClickAutoMode => true
  | _ => false
  end.

Definition is_TimerTick (e : Event) : bool :=
  match e with
  | TimerTick => true
  | _ => false
  end.

End Loop.

(** ** Keys in the order a [Map] lists them *)

Module Keys.

(** The members of [l] that are not in [seen], each at its first
    occurrence. *)
Fixpoint distinct (seen l : list string) : list string :=
  match l with
  | [] => []
  | k :: r =>
      if existsb (String.eqb k) seen then distinct seen r
      else k :: distinct (k :: seen) r
  end.

End Keys.

(** ** The response elements [performDiscovery] accepts *)

Module Shape.

(** An object whose own property [normalized_name] is a string. *)
Definition keyed_object (item : JSValue) : bool :=
  match item with
  | JObj props =>
      match Service.own_property "normalized_name" props with
      | JStr _ => true
      | _ => false
      end
  | _ => false
  end.

End Shape.

(** ** What every state of the running component satisfies *)

Module Invariant.

(** At most one call of [handleDiscovery] is suspended; [isSearching]
    says whether one is, and [isAnalyzing] whether it still waits for its
    timeout. *)
Definition one_at_a_time (w : World) : Prop :=
  match inflight w with
  | [] => isSearching (ui w) = false /\ isAnalyzing (ui w) = false
  | [t] =>
      isSearching (ui w) = true
      /\ isAnalyzing (ui w)
         = match awaiting t with
           | Timeout1000 => true
           | Discovery => false
           end
  | _ :: _ :: _ => False
  end.

(** The suspended calls that saw autonomous mode on. *)
Definition autonomous_inflight (w : World) : Z :=
  App.count (filter closure_isAutonomous (inflight w)).

(** The known patterns every suspended call holds are the keys of the
    registry as it stands. *)
Definition patterns_current (w : World) : Prop :=
  forall t,
    In t (inflight w) ->
    knownPatterns t = map normalized_name (sites (ui w)).

Definition holds (w : World) : Prop :=
  one_at_a_time w
  /\ 0 <= nextCycleCountdown (ui w) <= 15
  /\ (List.length (logs (ui w)) <= 50)%nat
  /\ 0 <= autoCycleCount (ui w)
  /\ autoCycleCount (ui w) + autonomous_inflight w <= App.count (evolved w).

End Invariant.

(** ** The export and clipboard helpers of [src/App.tsx] *)

Module ExportTxt.
Import App.

Definition setIsCopied (b : bool) (st : State) : State :=
  mkState (sites st) (logs st) (isSearching st) (isAnalyzing st)
    (isAutonomous st) (searchQuery st) b (autoCycleCount st)
    (nextCycleCountdown st).

(** [getCleanedList()] *)
Definition getCleanedList (st : State) : string :=
  Service.join " "
    (map normalized_name
       (filter (fun s => negb (SiteStatus_eqb (status s) FALSE_POSITIVE))
          (sites st))).

(** [s.split(sep)[0]] for a one-character separator. *)
Fixpoint before (sep : ascii) (s : string) : string :=
  match s with
  | EmptyString => EmptyString
  | String c r =>
      if Ascii.eqb c sep then EmptyString else String c (before sep r)
  end.

(** What [downloadTxt()] hands to the browser: the text of the blob and
    the [download] attribute of the link. *)
Record Download : Type := mkDownload {
  blob_text : string;
  download : string
}.

(** [downloadTxt()]; [iso] is [new Date().toISOString()]. *)
Definition downloadTxt (iso now : string) (st : State) : Download * State :=
  let content := getCleanedList st in
  (mkDownload content ("gambling_filter_" ++ before "T" iso ++ ".txt"),
   addLog now ("Exported " ++ show (count (sites st))
               ++ " sites to filter.txt") success st).

(** [copyToClipboard()] up to [await navigator.clipboard.writeText]:
    the text it asks the clipboard to take, [None] when it returns at
    once. *)
Definition copyToClipboard_begin (st : State) : option string :=
  match getCleanedList st with
  | EmptyString => None
  | String c r => Some (String c r)
  end.

(** The rest of [copyToClipboard()] once [writeText] has settled;
    [closure] is the state of the render the handler belongs to. *)
Definition copyToClipboard_settle (now : string) (written : bool)
  (closure st : State) : State :=
  if written then
    addLog now ("Copied " ++ show (count (sites closure))
                ++ " keywords to clipboard.") success
      (setIsCopied true st)
  else addLog now "Failed to copy to clipboard." error st.

(** The callback of [setTimeout(() => setIsCopied(false), 2000)]. *)
Definition copied_timeout (st : State) : State := setIsCopied false st.

(** [s.split(sep)] for a one-character separator, as a reader of the
    exported list would apply it. *)
Fixpoint split (sep : ascii) (s : string) : list string :=
  match s with
  | EmptyString => [EmptyString]
  | String c r =>
      if Ascii.eqb c sep then EmptyString :: split sep r
      else
        match split sep r with
        | w :: ws => String c w :: ws
        | [] => [String c EmptyString]
        end
  end.

End ExportTxt.

(** ** The component with its export and clipboard buttons

    The transition system above, with the two buttons of the header added.
    They are rendered in every state and disabled while the registry is
    empty.  A call of [copyToClipboard] is suspended at its [await] with
    the state of its render; each successful copy leaves one timeout
    pending. *)

Inductive DeskEvent : Type :=
| Component (e : Event)
| ClickExportTxt (iso : string)
| ClickCopyList
| ClipboardSettled (i : nat) (written : bool)
| CopiedTimeoutElapsed.

Record Desk : Type := mkDesk {
  world : World;
  copying : list State;
  copied_timers : nat
}.

Module Desk.
Import App ExportTxt.

Definition start : Desk := mkDesk Loop.start [] 0.

Section WithParser.

(** [JSON.parse]; [None] is its [SyntaxError]. *)
Variable JSON_parse : string -> option JSValue.

Definition handle (a : Ambient) (e : DeskEvent) (d : Desk) : option Desk :=
  let w := world d in
  let st := ui w in
  match e with
  | Component e0 =>
      match Loop.handle JSON_parse a e0 w with
      | Some w1 => Some (mkDesk w1 (copying d) (copied_timers d))
      | None => None
      end
  | ClickExportTxt iso =>
      match sites st with
      | [] => None
      | _ :: _ =>
          Some (mkDesk (Loop.with_ui (snd (downloadTxt iso (now a) st)) w)
                  (copying d) (copied_timers d))
      end
  | ClickCopyList =>
      match sites st with
      | [] => None
      | _ :: _ =>
          match copyToClipboard_begin st with
          | Some _ =>
              Some (mkDesk w (copying d ++ [st])%list (copied_timers d))
          | None => Some d
          end
      end
  | ClipboardSettled i written =>
      match nth_error (copying d) i with
      | Some closure =>
          Some (mkDesk
                  (Loop.with_ui
                     (copyToClipboard_settle (now a) written closure st) w)
                  (Loop.remove_at i (copying d))
                  (if written then S (copied_timers d)
                   else copied_timers d))
      | None => None
      end
  | CopiedTimeoutElapsed =>
      match copied_timers d with
      | S k =>
          Some (mkDesk (Loop.with_ui (copied_timeout st) w) (copying d) k)
      | O => None
      end
  end.

(** The event, then the autonomous effect of the render that results. *)
Definition step (a : Ambient) (e : DeskEvent) (d : Desk) : option Desk :=
  match handle a e d with
  | Some d1 =>
      match Loop.autonomous_effect a (ui (world d)) (world d1) with
      | Some w' => Some (mkDesk w' (copying d1) (copied_timers d1))
      | None => None
      end
  | None => None
  end.

Fixpoint run (trace : list (Ambient * DeskEvent)) (d : Desk) : option Desk :=
  match trace with
  | [] => Some d
  | (a, e) :: rest =>
      match step a e d with
      | Some d1 => run rest d1
      | None => None
      end
  end.

End WithParser.
End Desk.

(** ** Sample data *)

Module Sample.

Definition site (id0 name key : string) (st : SiteStatus) : GamblingSite :=
  {| id := id0;
     site_name := JStr name;
     normalized_name := key;
     first_seen := "2024-05-01T10:00:00.000Z";
     last_seen := "2024-05-01T10:00:00.000Z";
     confidence_score := JNum 0.75%float;
     status := st;
     source_count := 3;
     sources := ["https://example.org/a"] |}.

Definition old_slot88 : GamblingSite :=
  site "k3x9q0a1z" "Slot88.com" "slot88com" FALSE_POSITIVE.
Definition old_gacor : GamblingSite :=
  site "p0o9i8u7y" "GACOR-77" "gacor77" ACTIVE.
Definition new_slot88 : GamblingSite :=
  site "a1b2c3d4e" "SLOT88.COM" "slot88com" ACTIVE.
Definition new_maxwin : GamblingSite :=
  site "zz9yy8xx7" "maxwin.vip" "maxwinvip" ACTIVE.
Definition flagged_site : GamblingSite :=
  site "f1f2f3f4f" "Raja Slot" "rajaslot" FLAGGED.

Definition registry : list GamblingSite := [old_slot88; old_gacor].
Definition discovered : list GamblingSite := [new_maxwin; new_slot88].

(** A response text, the value it denotes, and a [JSON.parse] that knows
    this text and [null] and rejects every other string. *)
Definition extracted : JSValue :=
  JObj [("extracted_sites",
         JArr [JObj [("site_name", JStr "Slot-88.COM");
                     ("normalized_name", JStr "SLOT_88 vip!");
                     ("confidence_score", JNum 0.75%float)]])].

Definition extracted_text : string :=
  "{" ++ App.quoted "extracted_sites" ++ ":[{"
  ++ App.quoted "site_name" ++ ":" ++ App.quoted "Slot-88.COM" ++ ","
  ++ App.quoted "normalized_name" ++ ":" ++ App.quoted "SLOT_88 vip!" ++ ","
  ++ App.quoted "confidence_score" ++ ":0.75}]}".

Definition parse (s : string) : option JSValue :=
  if String.eqb s extracted_text then Some extracted
  else if String.eqb s "null" then Some JNull
  else None.

Definition grounded : option (list Candidate) :=
  Some [mkCandidate
          (Some (mkMeta
                   (Some [mkChunk (Some (mkWeb (Some "https://example.org/a")));
                          mkChunk None;
                          mkChunk (Some (mkWeb (Some "")))])))].

(** The record [performDiscovery] makes of that element. *)
Definition found : GamblingSite :=
  mkSite "q1w2e3r4t" (JStr "Slot-88.COM") "slot88vip"
    "2024-05-01T10:00:00.000Z" "2024-05-01T10:00:00.000Z"
    (JNum 0.75%float) ACTIVE 3 ["https://example.org/a"].

Definition good_response : GenerateContentResponse :=
  mkResponse grounded (Some extracted_text).

Definition prose_response : GenerateContentResponse :=
  mkResponse grounded (Some "Sorry, I cannot help with that.").

Definition env : ServiceEnv :=
  mkServiceEnv "2024-05-01T10:00:00.000Z" (fun _ => "q1w2e3r4t")
    (fun _ => 2) "Cannot read properties of undefined".

Definition at_ (t : string) : Ambient := mkAmbient t 0 0.

(** A session: autonomous mode is switched on, one cycle runs, the
    countdown ticks twice, the mode is switched off; then the operator
    goes on working by hand. *)
Definition until_switch_off : list (Ambient * Event) :=
  [ (at_ "10:00:00", ClickAutoMode);
    (at_ "10:00:01", TimeoutElapsed 0);
    (at_ "10:00:03", DiscoverySettled 0 (fun _ => Answer good_response) env);
    (at_ "10:00:04", TimerTick);
    (at_ "10:00:05", TimerTick);
    (at_ "10:00:06", ClickAutoMode) ].

Definition switched_off : World :=
  match Loop.run parse until_switch_off Loop.start with
  | Some w => w
  | None => Loop.start
  end.

Definition by_hand : list (Ambient * Event) :=
  [ (at_ "10:00:10", ClickToggleStatus 0);
    (at_ "10:00:20", ChangeSearchQuery "situs judi slot online");
    (at_ "10:00:21", ClickManualDiscovery);
    (at_ "10:00:22", TimeoutElapsed 0);
    (at_ "10:00:24",
     DiscoverySettled 0 (fun _ => Failure (ErrorObject "fetch failed")) env);
    (at_ "10:00:30", ClickManualDiscovery);
    (at_ "10:00:31", TimeoutElapsed 0);
    (at_ "10:00:33", DiscoverySettled 0 (fun _ => Answer good_response) env) ].

(** Autonomous mode is switched off while the cycle it started still
    waits for its timeout. *)
Definition switch_off_early : list (Ambient * Event) :=
  [ (at_ "10:00:00", ClickAutoMode);
    (at_ "10:00:00", ClickAutoMode);
    (at_ "10:00:01", TimeoutElapsed 0);
    (at_ "10:00:03", DiscoverySettled 0 (fun _ => Answer good_response) env) ].

(** The service fails.  Once the cycle was started by hand and the mode
    switched on while it ran; once the loop started it and the mode was
    switched off while it ran. *)
Definition failing : Event :=
  DiscoverySettled 0 (fun _ => Failure (ErrorObject "fetch failed")) env.

Definition by_hand_then_on : World :=
  match Loop.run parse
          [ (at_ "11:00:00", ClickManualDiscovery);
            (at_ "11:00:00", ClickAutoMode);
            (at_ "11:00:01", TimeoutElapsed 0) ] Loop.start
  with
  | Some w => w
  | None => Loop.start
  end.

Definition by_loop_then_off : World :=
  match Loop.run parse
          [ (at_ "11:00:00", ClickAutoMode);
            (at_ "11:00:00", ClickAutoMode);
            (at_ "11:00:01", TimeoutElapsed 0) ] Loop.start
  with
  | Some w => w
  | None => Loop.start
  end.

(** A cycle started by the loop that still waits for the service. *)
Definition mid_cycle : list (Ambient * Event) :=
  [ (at_ "10:00:00", ClickAutoMode);
    (at_ "10:00:01", TimeoutElapsed 0) ].

(** The operator empties the query field and switches the mode on. *)
Definition emptied_query : World :=
  match Loop.run parse [(at_ "09:59:00", ChangeSearchQuery "  ")] Loop.start
  with
  | Some w => w
  | None => Loop.start
  end.

(** A registry as the application makes it, with one false positive. *)
Definition reviewed : State :=
  App.setSites
    (fun _ => [old_slot88; old_gacor; new_maxwin]) App.initial.

(** A session in which the list is exported and copied. *)
Definition with_buttons : list (Ambient * DeskEvent) :=
  [ (at_ "12:00:00", Component ClickManualDiscovery);
    (at_ "12:00:01", Component (TimeoutElapsed 0));
    (at_ "12:00:03",
     Component (DiscoverySettled 0 (fun _ => Answer good_response) env));
    (at_ "12:00:05", ClickExportTxt "2024-05-01T12:00:05.000Z");
    (at_ "12:00:06", ClickCopyList);
    (at_ "12:00:06", ClipboardSettled 0 true);
    (at_ "12:00:08", CopiedTimeoutElapsed) ].

(** The mode is on and the countdown stands at 15. *)
Definition waiting : World :=
  Loop.with_ui
    (App.setNextCycleCountdown (fun _ => 15)
       (App.setIsAutonomous true reviewed))
    Loop.start.

End Sample.

(** * Properties *)

Local Open Scope list_scope.

(** ** The [Map] *)

Section JSMapFacts.
Variable V : Type.
Implicit Types (m : JSMap.t V) (k : string) (v : V).

Local Abbreviation ins := (fun (m : JSMap.t V) e => JSMap.set (fst e) (snd e) m).

Lemma get_set k' k v m :
  JSMap.get k' (JSMap.set k v m)
  = if String.eqb k' k then Some v else JSMap.get k' m.
Proof.
  induction m as [|[k0 v0] m IH]; simpl.
  - reflexivity.
  - destruct (String.eqb k k0) eqn:E; simpl.
    + apply String.eqb_eq in E. subst k0.
      destruct (String.eqb k' k); reflexivity.
    + rewrite IH. destruct (String.eqb k' k0) eqn:E0; [|reflexivity].
      apply String.eqb_eq in E0. subst k0.
      destruct (String.eqb k' k) eqn:E1; [|reflexivity].
      apply String.eqb_eq in E1. subst k'.
      rewrite String.eqb_refl in E. discriminate.
Qed.

Lemma set_absent k v m :
  ~ In k (JSMap.keys m) -> JSMap.set k v m = (m ++ [(k, v)])%list.
Proof.
  induction m as [|[k0 v0] m IH]; simpl; intros H.
  - reflexivity.
  - destruct (String.eqb k k0) eqn:E.
    + apply String.eqb_eq in E. subst. tauto.
    + rewrite IH; tauto.
Qed.

Lemma keys_set_present k v m :
  In k (JSMap.keys m) -> JSMap.keys (JSMap.set k v m) = JSMap.keys m.
Proof.
  induction m as [|[k0 v0] m IH]; simpl; intros H.
  - contradiction.
  - destruct (String.eqb k k0) eqn:E; simpl.
    + apply String.eqb_eq in E. now subst.
    + apply String.eqb_neq in E. f_equal. apply IH.
      destruct H; congruence.
Qed.

Lemma In_keys_set k' k v m :
  In k' (JSMap.keys (JSMap.set k v m)) <-> k' = k \/ In k' (JSMap.keys m).
Proof.
  destruct (in_dec string_dec k (JSMap.keys m)) as [Hin|Hout].
  - rewrite keys_set_present by assumption.
    split; [tauto|]. intros [->|H]; assumption.
  - rewrite set_absent by assumption. unfold JSMap.keys.
    rewrite map_app, in_app_iff. simpl. intuition congruence.
Qed.

Lemma NoDup_keys_set k v m :
  NoDup (JSMap.keys m) -> NoDup (JSMap.keys (JSMap.set k v m)).
Proof.
  intros H. destruct (in_dec string_dec k (JSMap.keys m)) as [Hin|Hout].
  - now rewrite keys_set_present.
  - rewrite set_absent by assumption. unfold JSMap.keys in *.
    rewrite map_app. simpl.
    apply NoDup_app; [assumption | repeat constructor; simpl; tauto |].
    intros x Hx [<-|[]]. contradiction.
Qed.

Lemma set_app_present k v m r :
  In k (JSMap.keys m) ->
  JSMap.set k v (m ++ r)%list = (JSMap.set k v m ++ r)%list.
Proof.
  induction m as [|[k0 v0] m IH]; simpl; intros H.
  - contradiction.
  - destruct (String.eqb k k0) eqn:E; simpl.
    + reflexivity.
    + apply String.eqb_neq in E. rewrite IH; [reflexivity|].
      destruct H; congruence.
Qed.

Lemma set_app_absent k v m r :
  ~ In k (JSMap.keys m) ->
  JSMap.set k v (m ++ r)%list = (m ++ JSMap.set k v r)%list.
Proof.
  induction m as [|[k0 v0] m IH]; simpl; intros H.
  - reflexivity.
  - destruct (String.eqb k k0) eqn:E.
    + apply String.eqb_eq in E. subst. tauto.
    + rewrite IH; tauto.
Qed.

Lemma NoDup_keys_fold es m :
  NoDup (JSMap.keys m) -> NoDup (JSMap.keys (fold_left ins es m)).
Proof.
  revert m. induction es as [|[k v] es IH]; simpl; intros m H.
  - assumption.
  - apply IH, NoDup_keys_set, H.
Qed.

Lemma In_keys_fold k es m :
  In k (JSMap.keys (fold_left ins es m))
  <-> In k (JSMap.keys m) \/ In k (map fst es).
Proof.
  revert m. induction es as [|[k0 v0] es IH]; simpl; intros m.
  - tauto.
  - rewrite IH, In_keys_set. intuition congruence.
Qed.

Lemma get_fold k es m :
  JSMap.get k (fold_left ins es m)
  = match JSMap.last_value k es with
    | Some v => Some v
    | None => JSMap.get k m
    end.
Proof.
  revert m. induction es as [|[k0 v0] es IH]; simpl; intros m.
  - reflexivity.
  - rewrite IH. destruct (JSMap.last_value k es); [reflexivity|].
    rewrite get_set. now destruct (String.eqb k k0).
Qed.

Lemma get_None k m : JSMap.get k m = None <-> ~ In k (JSMap.keys m).
Proof.
  induction m as [|[k0 v0] m IH]; simpl.
  - tauto.
  - destruct (String.eqb k k0) eqn:E.
    + apply String.eqb_eq in E. subst. split; [discriminate|tauto].
    + apply String.eqb_neq in E. rewrite IH. intuition congruence.
Qed.

Lemma get_In k v m :
  NoDup (JSMap.keys m) -> (JSMap.get k m = Some v <-> In (k, v) m).
Proof.
  induction m as [|[k0 v0] m IH]; simpl; intros H.
  - split; [discriminate|tauto].
  - inversion H as [|? ? Hout Hnd]; subst.
    destruct (String.eqb k k0) eqn:E.
    + apply String.eqb_eq in E. subst k0. split.
      * intros [= ->]. now left.
      * intros [[= ->]|Hin]; [reflexivity|].
        exfalso. apply Hout. change k with (fst (k, v)).
        now apply in_map.
    + apply String.eqb_neq in E. rewrite IH by assumption.
      split; [tauto|]. intros [[= -> ->]|Hin]; [congruence|assumption].
Qed.

Lemma last_value_app k (a b : list (string * V)) :
  JSMap.last_value k (a ++ b)
  = match JSMap.last_value k b with
    | Some v => Some v
    | None => JSMap.last_value k a
    end.
Proof.
  induction a as [|[k0 v0] a IH]; simpl.
  - now destruct (JSMap.last_value k b).
  - rewrite IH. now destruct (JSMap.last_value k b).
Qed.

Lemma last_value_None k (es : list (string * V)) :
  JSMap.last_value k es = None <-> ~ In k (map fst es).
Proof.
  induction es as [|[k0 v0] es IH]; simpl.
  - tauto.
  - destruct (JSMap.last_value k es) eqn:L.
    + split; [discriminate|]. intros H. exfalso.
      assert (Hn : ~ In k (map fst es)) by tauto.
      apply IH in Hn. discriminate.
    + destruct (String.eqb k k0) eqn:E.
      * apply String.eqb_eq in E. subst. split; [discriminate|tauto].
      * apply String.eqb_neq in E.
        assert (Hn : ~ In k (map fst es)) by now apply IH.
        intuition congruence.
Qed.

Lemma last_value_In k v (es : list (string * V)) :
  JSMap.last_value k es = Some v -> In (k, v) es.
Proof.
  induction es as [|[k0 v0] es IH]; simpl.
  - discriminate.
  - destruct (JSMap.last_value k es) eqn:L.
    + intros [= ->]. right. now apply IH.
    + destruct (String.eqb k k0) eqn:E; [|discriminate].
      apply String.eqb_eq in E. subst. intros [= ->]. now left.
Qed.

Lemma last_value_NoDup k v (es : list (string * V)) :
  NoDup (map fst es) -> In (k, v) es -> JSMap.last_value k es = Some v.
Proof.
  induction es as [|[k0 v0] es IH]; simpl; intros Hnd Hin.
  - contradiction.
  - inversion Hnd as [|? ? Hout Hnd']; subst.
    destruct Hin as [[= -> ->]|Hin].
    + assert (L : JSMap.last_value k es = None) by now apply last_value_None.
      rewrite L, String.eqb_refl. reflexivity.
    + now rewrite (IH Hnd' Hin).
Qed.

(** Setting again, in their order, the entries a map already holds. *)
Lemma fold_head k v es m :
  ~ In k (map fst es) ->
  fold_left ins es ((k, v) :: m) = (k, v) :: fold_left ins es m.
Proof.
  revert v m. induction es as [|[k0 v0] es IH]; simpl; intros v m H.
  - reflexivity.
  - destruct (String.eqb k0 k) eqn:E.
    + apply String.eqb_eq in E. subst. tauto.
    + apply IH. tauto.
Qed.

Lemma fold_same_keys m a :
  NoDup (JSMap.keys m) -> JSMap.keys m = JSMap.keys a ->
  fold_left ins m a = m.
Proof.
  revert a. induction m as [|[k v] m IH]; intros [|[k0 v0] a] Hnd Hk;
    try discriminate.
  - reflexivity.
  - simpl in Hk. injection Hk as <- Hk.
    inversion Hnd as [|? ? Hout Hnd']; subst.
    simpl. rewrite String.eqb_refl.
    rewrite fold_head by exact Hout. f_equal. now apply IH.
Qed.

Lemma fold_fresh m a :
  NoDup (JSMap.keys (a ++ m)) -> fold_left ins m a = (a ++ m)%list.
Proof.
  revert a. induction m as [|[k v] m IH]; simpl; intros a H.
  - now rewrite app_nil_r.
  - unfold JSMap.keys in H. rewrite map_app in H.
    assert (Hout : ~ In k (JSMap.keys a)).
    { intros Hin. simpl in H. apply NoDup_remove_2 in H. apply H.
      apply in_or_app. now left. }
    rewrite set_absent by assumption.
    rewrite IH; rewrite <- app_assoc; simpl; [reflexivity|].
    unfold JSMap.keys. now rewrite map_app.
Qed.

Lemma fold_shape es a r0 :
  exists a' r,
    fold_left ins es (a ++ r0)%list = (a' ++ r)%list
    /\ JSMap.keys a' = JSMap.keys a.
Proof.
  revert a r0. induction es as [|[k v] es IH]; simpl; intros a r0.
  - now exists a, r0.
  - destruct (in_dec string_dec k (JSMap.keys a)) as [Hin|Hout].
    + rewrite set_app_present by assumption.
      destruct (IH (JSMap.set k v a) r0) as (a' & r & E & K).
      exists a', r. split; [assumption|].
      now rewrite K, keys_set_present.
    + rewrite set_app_absent by assumption. apply IH.
Qed.

Lemma fold_refold es a :
  NoDup (JSMap.keys a) ->
  fold_left ins (fold_left ins es a) a = fold_left ins es a.
Proof.
  intros Hnd.
  assert (Hm : NoDup (JSMap.keys (fold_left ins es a)))
    by now apply NoDup_keys_fold.
  destruct (fold_shape es a []) as (a' & r & E & K).
  rewrite app_nil_r in E. rewrite E in *.
  rewrite fold_left_app.
  assert (Ha' : NoDup (JSMap.keys a')).
  { unfold JSMap.keys in Hm. rewrite map_app in Hm.
    now apply NoDup_app_remove_r in Hm. }
  rewrite (@fold_same_keys a' a Ha' K). now apply fold_fresh.
Qed.

(** Maps whose entries are keyed by a field of the value. *)
Variable key : V -> string.

Local Abbreviation keyed := (JSMap.keyed key).
Local Abbreviation entries := (map (fun item => (key item, item))).

Lemma keyed_set v m : keyed m -> keyed (JSMap.set (key v) v m).
Proof.
  unfold JSMap.keyed. induction m as [|[k0 v0] m IH]; simpl; intros H.
  - repeat constructor.
  - inversion H; subst. destruct (String.eqb (key v) k0).
    + constructor; [reflexivity|assumption].
    + constructor; [assumption|now apply IH].
Qed.

Lemma keyed_fold l m : keyed m -> keyed (fold_left ins (entries l) m).
Proof.
  revert m. induction l as [|x l IH]; simpl; intros m H.
  - assumption.
  - apply IH, keyed_set, H.
Qed.

Lemma entries_values m : keyed m -> entries (JSMap.values m) = m.
Proof.
  unfold JSMap.keyed, JSMap.values. induction 1 as [|[k v] m Hk _ IH]; simpl.
  - reflexivity.
  - simpl in Hk. now rewrite IH, Hk.
Qed.

Lemma keys_values m : keyed m -> map key (JSMap.values m) = JSMap.keys m.
Proof.
  unfold JSMap.keyed, JSMap.values, JSMap.keys.
  induction 1 as [|[k v] m Hk _ IH]; simpl.
  - reflexivity.
  - simpl in Hk. now rewrite IH, Hk.
Qed.

Lemma values_entries l : JSMap.values (entries l) = l.
Proof.
  unfold JSMap.values. rewrite map_map. simpl. apply map_id.
Qed.

Lemma keys_entries l : JSMap.keys (entries l) = map key l.
Proof.
  unfold JSMap.keys. now rewrite map_map.
Qed.

Lemma In_values v m : keyed m -> (In v (JSMap.values m) <-> In (key v, v) m).
Proof.
  unfold JSMap.keyed, JSMap.values. intros H. rewrite in_map_iff. split.
  - intros ([k x] & <- & Hin). simpl.
    rewrite Forall_forall in H. specialize (H _ Hin). simpl in H.
    now subst.
  - intros Hin. now exists (key v, v).
Qed.

End JSMapFacts.

(** ** The registry: merge, growth, key uniqueness *)

Section Registry.
Import App.

Local Abbreviation names := (map normalized_name).
Local Abbreviation entries := (map (fun item => (normalized_name item, item))).
Local Abbreviation ins :=
  (fun (m : JSMap.t GamblingSite) e => JSMap.set (fst e) (snd e) m).

Lemma of_entries_keyed l :
  JSMap.keyed normalized_name (JSMap.of_entries (entries l)).
Proof. apply keyed_fold. constructor. Qed.

Lemma of_entries_NoDup l :
  NoDup (JSMap.keys (JSMap.of_entries (entries l))).
Proof. apply NoDup_keys_fold. constructor. Qed.

Lemma unique_sites_names newSites prev :
  names (unique_sites newSites prev)
  = JSMap.keys (JSMap.of_entries (entries (newSites ++ prev))).
Proof. apply keys_values, of_entries_keyed. Qed.

Lemma unique_sites_NoDup newSites prev :
  NoDup (names (unique_sites newSites prev)).
Proof. rewrite unique_sites_names. apply of_entries_NoDup. Qed.

Lemma unique_sites_In_names k newSites prev :
  In k (names (unique_sites newSites prev))
  <-> In k (names (newSites ++ prev)).
Proof.
  rewrite unique_sites_names. unfold JSMap.of_entries.
  rewrite In_keys_fold. simpl. rewrite map_map. simpl. tauto.
Qed.

(** The merged registry holds, under each key, the last record of
    [newSites ++ prev] with that key. *)
Lemma unique_sites_In r newSites prev :
  In r (unique_sites newSites prev)
  <-> record_of (normalized_name r) (newSites ++ prev) = Some r.
Proof.
  unfold unique_sites, record_of.
  rewrite In_values by apply of_entries_keyed.
  rewrite <- get_In by apply of_entries_NoDup.
  unfold JSMap.of_entries. rewrite get_fold. simpl.
  destruct (JSMap.last_value _ _); tauto.
Qed.

Lemma record_of_app k a b :
  record_of k (a ++ b)
  = match record_of k b with
    | Some r => Some r
    | None => record_of k a
    end.
Proof. unfold record_of. rewrite map_app. apply last_value_app. Qed.

Lemma record_of_In k r reg :
  record_of k reg = Some r -> In r reg /\ normalized_name r = k.
Proof.
  unfold record_of. intros H. apply last_value_In in H.
  apply in_map_iff in H. destruct H as (x & [= <- <-] & Hin). now split.
Qed.

Lemma record_of_NoDup r reg :
  NoDup (names reg) -> In r reg -> record_of (normalized_name r) reg = Some r.
Proof.
  intros Hnd Hin. unfold record_of. apply last_value_NoDup.
  - now rewrite map_map.
  - apply in_map_iff. now exists r.
Qed.

Lemma unique_sites_incl r newSites prev :
  In r (unique_sites newSites prev) -> In r newSites \/ In r prev.
Proof.
  intros H. apply unique_sites_In in H. apply record_of_In in H.
  destruct H as [H _]. now apply in_app_or.
Qed.

Lemma toggleStatus_names id0 reg : names (toggleStatus id0 reg) = names reg.
Proof.
  unfold toggleStatus. rewrite map_map. apply map_ext. intros s.
  now destruct (String.eqb (id s) id0).
Qed.

Lemma apply_op_NoDup reg op :
  NoDup (names reg) -> NoDup (names (apply_op reg op)).
Proof.
  destruct op as [newSites|id0]; simpl; intros H.
  - apply unique_sites_NoDup.
  - now rewrite toggleStatus_names.
Qed.

(** C1. A discovery merge keeps, for every normalized_name the registry
    already holds, the registry's own record and drops the new record with
    that name; the merged registry has exactly one record for each
    normalized_name of the new sites and of the registry. *)
Theorem merge_keeps_registered_record :
  forall newSites prev : list GamblingSite,
    let merged := unique_sites newSites prev in
    NoDup (names merged)
    /\ (forall k, In k (names merged) <-> In k (names (newSites ++ prev)))
    /\ (forall k old,
           record_of k prev = Some old ->
           In old merged
           /\ forall r, In r merged -> normalized_name r = k -> r = old)
    /\ (NoDup (names prev) -> forall old, In old prev -> In old merged).
Proof.
  intros newSites prev merged. subst merged.
  assert (Hkeep : forall k old, record_of k prev = Some old ->
                                In old (unique_sites newSites prev)).
  { intros k old H. apply unique_sites_In.
    destruct (record_of_In _ _ H) as [_ ->].
    now rewrite record_of_app, H. }
  repeat split.
  - apply unique_sites_NoDup.
  - apply unique_sites_In_names.
  - apply unique_sites_In_names.
  - now apply Hkeep with k.
  - intros r Hr Hk. apply unique_sites_In in Hr.
    rewrite record_of_app, Hk, H in Hr. congruence.
  - intros Hnd old Hin. apply Hkeep with (normalized_name old).
    now apply record_of_NoDup.
Qed.

(** The registry keeps its own [slot88com] record and the new one is not
    in the merged registry. *)
Lemma merge_keeps_registered_record_witness :
  In Sample.old_slot88 (unique_sites Sample.discovered Sample.registry)
  /\ map id (unique_sites Sample.discovered Sample.registry)
     = ["zz9yy8xx7"; "k3x9q0a1z"; "p0o9i8u7y"]%string.
Proof.
  split.
  - apply (merge_keeps_registered_record Sample.discovered Sample.registry).
    + repeat constructor; simpl; intuition discriminate.
    + simpl. tauto.
  - reflexivity.
Defined.

(** Among new records that share a key, none of them in the registry, the
    one that comes last in [newSites] is kept, at the place of the first. *)
Lemma merge_new_duplicates_keep_last :
  unique_sites [Sample.new_slot88; Sample.new_maxwin; Sample.old_slot88] []
  = [Sample.old_slot88; Sample.new_maxwin].
Proof. reflexivity. Qed.

(** C3. Merging the same new sites a second time changes nothing, the
    uniqueness pass alone leaves a merged registry as it is, and a
    registry with pairwise-distinct keys is unchanged by a merge with no
    new sites. *)
Theorem dedup_idempotent :
  forall newSites prev : list GamblingSite,
    unique_sites newSites (unique_sites newSites prev)
    = unique_sites newSites prev
    /\ unique_sites [] (unique_sites newSites prev)
       = unique_sites newSites prev
    /\ (NoDup (names prev) -> unique_sites [] prev = prev).
Proof.
  intros newSites prev.
  assert (Hnil : forall reg, NoDup (names reg) -> unique_sites [] reg = reg).
  { intros reg H. unfold unique_sites, JSMap.of_entries. simpl.
    rewrite fold_fresh.
    - apply (values_entries normalized_name).
    - simpl. now rewrite (keys_entries normalized_name). }
  split; [|split].
  - unfold unique_sites at 1 3. unfold JSMap.of_entries.
    rewrite !map_app, !fold_left_app. f_equal.
    unfold unique_sites, JSMap.of_entries.
    rewrite map_app, fold_left_app.
    set (a := fold_left ins (entries newSites) []).
    assert (Ha : NoDup (JSMap.keys a))
      by (apply NoDup_keys_fold; constructor).
    rewrite (@entries_values _ normalized_name).
    + now apply fold_refold.
    + apply keyed_fold. apply keyed_fold. constructor.
  - apply Hnil, unique_sites_NoDup.
  - apply Hnil.
Qed.

Lemma dedup_idempotent_witness :
  unique_sites [] Sample.registry = Sample.registry.
Proof.
  apply (dedup_idempotent Sample.discovered Sample.registry).
  repeat constructor; simpl; intuition discriminate.
Defined.

(** C6. When the registry's keys are pairwise distinct, a discovery merge
    keeps every normalized_name (indeed every record) of the registry and
    the merged registry is at least as long. *)
Theorem registry_only_grows :
  forall newSites prev : list GamblingSite,
    NoDup (names prev) ->
    let merged := unique_sites newSites prev in
    (forall k, In k (names prev) -> In k (names merged))
    /\ (forall old, In old prev -> In old merged)
    /\ (List.length prev <= List.length merged)%nat.
Proof.
  intros newSites prev Hnd merged. subst merged.
  assert (Hk : forall k, In k (names prev) ->
                         In k (names (unique_sites newSites prev))).
  { intros k H. apply unique_sites_In_names. rewrite map_app.
    apply in_or_app. now right. }
  split; [exact Hk|split].
  - intros old Hin. apply unique_sites_In.
    rewrite record_of_app. now rewrite record_of_NoDup.
  - rewrite <- (length_map normalized_name prev).
    rewrite <- (length_map normalized_name (unique_sites newSites prev)).
    apply NoDup_incl_length; [assumption|exact Hk].
Qed.

Lemma registry_only_grows_witness :
  (List.length Sample.registry
   <= List.length (unique_sites Sample.discovered Sample.registry))%nat.
Proof.
  apply (@registry_only_grows Sample.discovered Sample.registry).
  repeat constructor; simpl; intuition discriminate.
Defined.

(** C7. Starting from the empty registry, after any sequence of discovery
    merges and status toggles the records of the registry have
    pairwise-distinct normalized_name values. *)
Theorem registry_keys_distinct :
  forall ops : list RegistryOp, NoDup (names (registry_after ops)).
Proof.
  intros ops. unfold registry_after.
  assert (H : forall reg, NoDup (names reg) ->
                          NoDup (names (fold_left apply_op ops reg))).
  { induction ops as [|op ops IH]; simpl; intros reg Hreg.
    - assumption.
    - apply IH, apply_op_NoDup, Hreg. }
  apply H. constructor.
Qed.

End Registry.

(** ** Status toggle *)

Section Toggle.
Import App.

(** What the callback of [toggleStatus] does to one record. *)
Lemma toggleStatus_nth id0 reg i s :
  nth_error reg i = Some s ->
  exists s',
    nth_error (toggleStatus id0 reg) i = Some s'
    /\ status s'
       = (if String.eqb (id s) id0 then
            match status s with
            | ACTIVE => FALSE_POSITIVE
            | FALSE_POSITIVE | FLAGGED => ACTIVE
            end
          else status s)
    /\ (id s', site_name s', normalized_name s', first_seen s', last_seen s',
        confidence_score s', source_count s', sources s')
       = (id s, site_name s, normalized_name s, first_seen s, last_seen s,
          confidence_score s, source_count s, sources s).
Proof.
  intros H. unfold toggleStatus. rewrite nth_error_map, H. simpl.
  eexists. split; [reflexivity|].
  destruct (String.eqb (id s) id0); [|now split].
  simpl. now destruct (status s).
Qed.

Lemma toggle_record_twice (s : GamblingSite) :
  status s <> FLAGGED ->
  let once :=
    mkSite (id s) (site_name s) (normalized_name s) (first_seen s)
      (last_seen s) (confidence_score s)
      (if SiteStatus_eqb (status s) ACTIVE then FALSE_POSITIVE else ACTIVE)
      (source_count s) (sources s) in
  mkSite (id once) (site_name once) (normalized_name once) (first_seen once)
    (last_seen once) (confidence_score once)
    (if SiteStatus_eqb (status once) ACTIVE then FALSE_POSITIVE else ACTIVE)
    (source_count once) (sources once) = s.
Proof.
  destruct s as [i n k f l c st sc so]. simpl. intros H.
  destruct st; simpl; congruence.
Qed.

Lemma toggleStatus_twice id0 reg :
  (forall s, In s reg -> id s = id0 -> status s <> FLAGGED) ->
  toggleStatus id0 (toggleStatus id0 reg) = reg.
Proof.
  intros H. unfold toggleStatus. rewrite map_map.
  rewrite <- (map_id reg) at 2. apply map_ext_in. intros s Hin.
  destruct (String.eqb (id s) id0) eqn:E; simpl.
  - rewrite E. apply toggle_record_twice.
    apply H; [assumption|now apply String.eqb_eq].
  - now rewrite E.
Qed.

Lemma toggleStatus_app_made id0 reg :
  Forall app_made reg -> Forall app_made (toggleStatus id0 reg).
Proof.
  unfold toggleStatus. intros H. apply Forall_map.
  eapply Forall_impl; [|exact H]. intros s [Hs Hk].
  destruct (String.eqb (id s) id0); [|now split].
  split; [|exact Hk]. simpl.
  destruct (SiteStatus_eqb (status s) ACTIVE); discriminate.
Qed.

(** Two toggles of the same id, seen at one record. *)
Lemma toggleStatus_twice_nth id0 reg i s :
  nth_error reg i = Some s ->
  exists s2,
    nth_error (toggleStatus id0 (toggleStatus id0 reg)) i = Some s2
    /\ status s2
       = (if String.eqb (id s) id0 then
            match status s with
            | ACTIVE => ACTIVE
            | FALSE_POSITIVE | FLAGGED => FALSE_POSITIVE
            end
          else status s)
    /\ (id s2, site_name s2, normalized_name s2, first_seen s2, last_seen s2,
        confidence_score s2, source_count s2, sources s2)
       = (id s, site_name s, normalized_name s, first_seen s, last_seen s,
          confidence_score s, source_count s, sources s).
Proof.
  intros H. unfold toggleStatus. rewrite !nth_error_map, H. simpl.
  eexists. split; [reflexivity|].
  destruct (String.eqb (id s) id0) eqn:E; simpl; rewrite E; [|now split].
  simpl. now destruct (status s).
Qed.

(** C2, as the code has it.  At every record whose id is the one given,
    [toggleStatus] turns ACTIVE into FALSE_POSITIVE and turns
    FALSE_POSITIVE and FLAGGED into ACTIVE; it changes no other field and
    no other record.  After two toggles of the same id an ACTIVE or
    FALSE_POSITIVE record has its status back, and a FLAGGED one is
    FALSE_POSITIVE; so two toggles give the registry back when none of
    the records with that id is FLAGGED. *)
Theorem toggleStatus_flips :
  forall (id0 : string) (reg : list GamblingSite),
    (forall i s,
        nth_error reg i = Some s ->
        exists s1 s2,
          nth_error (toggleStatus id0 reg) i = Some s1
          /\ nth_error (toggleStatus id0 (toggleStatus id0 reg)) i = Some s2
          /\ status s1
             = (if String.eqb (id s) id0 then
                  match status s with
                  | ACTIVE => FALSE_POSITIVE
                  | FALSE_POSITIVE | FLAGGED => ACTIVE
                  end
                else status s)
          /\ status s2
             = (if String.eqb (id s) id0 then
                  match status s with
                  | ACTIVE => ACTIVE
                  | FALSE_POSITIVE | FLAGGED => FALSE_POSITIVE
                  end
                else status s)
          /\ (id s1, site_name s1, normalized_name s1, first_seen s1,
              last_seen s1, confidence_score s1, source_count s1,
              sources s1)
             = (id s, site_name s, normalized_name s, first_seen s,
                last_seen s, confidence_score s, source_count s,
                sources s)
          /\ (id s2, site_name s2, normalized_name s2, first_seen s2,
              last_seen s2, confidence_score s2, source_count s2,
              sources s2)
             = (id s, site_name s, normalized_name s, first_seen s,
                last_seen s, confidence_score s, source_count s,
                sources s))
    /\ ((forall s, In s reg -> id s = id0 -> status s <> FLAGGED) ->
        toggleStatus id0 (toggleStatus id0 reg) = reg).
Proof.
  intros id0 reg. split.
  - intros i s H.
    destruct (toggleStatus_nth id0 _ _ H) as (s1 & H1 & S1 & F1).
    destruct (toggleStatus_twice_nth id0 _ _ H) as (s2 & H2 & S2 & F2).
    exists s1, s2. repeat split; assumption.
  - apply toggleStatus_twice.
Qed.

Lemma toggleStatus_flips_witness :
  toggleStatus "k3x9q0a1z" (toggleStatus "k3x9q0a1z" Sample.registry)
  = Sample.registry.
Proof.
  apply (@toggleStatus_flips "k3x9q0a1z" Sample.registry).
  intros s [<-|[<-|[]]] _; discriminate.
Defined.

(** C2 as the claim has it fails on FLAGGED: one toggle makes the record
    ACTIVE, a second one FALSE_POSITIVE, and the status is not restored. *)
Lemma toggleStatus_FLAGGED_not_restored :
  status Sample.flagged_site = FLAGGED
  /\ map status (toggleStatus "f1f2f3f4f" [Sample.flagged_site]) = [ACTIVE]
  /\ map status
       (toggleStatus "f1f2f3f4f"
          (toggleStatus "f1f2f3f4f" [Sample.flagged_site]))
     = [FALSE_POSITIVE]
  /\ toggleStatus "f1f2f3f4f"
       (toggleStatus "f1f2f3f4f" [Sample.flagged_site])
     <> [Sample.flagged_site].
Proof.
  repeat split. discriminate.
Qed.

End Toggle.

(** ** The log stream and the error path of [handleDiscovery] *)

Section Handlers.
Import App.

Lemma logs_addLog now0 message0 type0 st :
  logs (addLog now0 message0 type0 st)
  = mkLog now0 message0 type0 :: firstn 49 (logs st).
Proof. reflexivity. Qed.

Lemma addLog_other now0 message0 type0 st :
  setLogs (fun _ => logs st) (addLog now0 message0 type0 st) = st.
Proof. now destruct st. Qed.

(** C10. [addLog] puts one entry with the given message and type at the
    head of [logs], keeps the 49 newest of the entries that were there,
    and so never leaves more than 50; nothing but [logs] changes. *)
Theorem addLog_bounded :
  forall (now message : string) (type : LogType) (st : State),
    let st' := addLog now message type st in
    logs st' = mkLog now message type :: firstn 49 (logs st)
    /\ (List.length (logs st') <= 50)%nat
    /\ List.length (logs st')
       = Nat.min 50 (S (List.length (logs st)))
    /\ setLogs (fun _ => logs st) st' = st.
Proof.
  intros now0 message0 type0 st st'. subst st'.
  rewrite logs_addLog. cbn [List.length]. rewrite length_firstn.
  repeat split; try lia. apply addLog_other.
Qed.

(** C4, as the code has it.  When [performDiscovery] throws,
    [handleDiscovery] adds one entry
    of type [error] to the log stream, leaves the registry as it was,
    resets [isSearching], and sets the countdown to 15 exactly when the
    call saw autonomous mode on, whatever was thrown; the cycle counter
    and the mode are untouched.  The mode the call sees is the one of the
    state it was started in. *)
Theorem discovery_error_handled :
  forall (now : string) (t : InFlight) (e : Thrown) (st : State),
    let st' := handleDiscovery_settle now t (Rejected e) st in
    sites st' = sites st
    /\ logs st'
       = mkLog now ("Error during discovery: " ++ error_text e)%string error
         :: firstn 49 (logs st)
    /\ isSearching st' = false
    /\ nextCycleCountdown st'
       = (if closure_isAutonomous t then 15 else nextCycleCountdown st)
    /\ autoCycleCount st' = autoCycleCount st
    /\ isAutonomous st' = isAutonomous st
    /\ (forall customQuery st0 st1 t0,
           handleDiscovery_begin now customQuery st0 = (st1, Some t0) ->
           closure_isAutonomous t0 = isAutonomous st0).
Proof.
  intros now0 t e st st'. subst st'.
  unfold handleDiscovery_settle, handleDiscovery_outcome.
  repeat split; try (destruct (closure_isAutonomous t); reflexivity).
  intros customQuery st0 st1 t0. unfold handleDiscovery_begin.
  destruct (_ || _)%bool; [discriminate|].
  now intros [= _ <-].
Qed.

End Handlers.

(** C4 as the claim has it fails when the mode is switched while the call
    runs.  Started by hand with the mode switched on meanwhile: when the
    call throws the mode is on, yet the countdown stays 0, and the effect
    starts the next cycle at once.  Started by the loop with the mode
    switched off meanwhile: when the call throws the mode is off, yet the
    countdown is set to 15. *)
Lemma discovery_error_countdown_ignores_current_mode :
  option_map
    (fun w => (isAutonomous (ui w), nextCycleCountdown (ui w),
               option_map type (hd_error (logs (ui w)))))
    (Loop.handle Sample.parse (Sample.at_ "11:00:03") Sample.failing
       Sample.by_hand_then_on)
  = Some (true, 0, Some error)
  /\ option_map
       (fun w => (isAutonomous (ui w), nextCycleCountdown (ui w),
                  isSearching (ui w), evolved w))
       (Loop.step Sample.parse (Sample.at_ "11:00:03") Sample.failing
          Sample.by_hand_then_on)
     = Some (true, 0, true, ["situs slot gacor terbaru 2024"%string])
  /\ option_map
       (fun w => (isAutonomous (ui w), nextCycleCountdown (ui w),
                  option_map type (hd_error (logs (ui w)))))
       (Loop.handle Sample.parse (Sample.at_ "11:00:03") Sample.failing
          Sample.by_loop_then_off)
     = Some (false, 15, Some error).
Proof. repeat split. Qed.

(** ** The discovery service *)

Section ServiceFacts.
Import Service.

Variable JSON_parse : string -> option JSValue.

Lemma strip_only_a_z_0_9 s :
  JSString.all_chars JSString.is_a_z_0_9 (JSString.strip_non_a_z_0_9 s)
  = true.
Proof.
  induction s as [|c r IH]; simpl.
  - reflexivity.
  - destruct (JSString.is_a_z_0_9 c) eqn:E; simpl.
    + now rewrite E.
    + assumption.
Qed.

(** A string of [a-z0-9] is its own normal form. *)
Lemma normalize_fixed s :
  JSString.all_chars JSString.is_a_z_0_9 s = true -> normalize s = s.
Proof.
  unfold normalize. induction s as [|c r IH]; simpl.
  - reflexivity.
  - intros H. apply andb_prop in H. destruct H as [Hc Hr].
    assert (L : JSString.lower_char c = c).
    { unfold JSString.lower_char.
      destruct (JSString.is_upper c) eqn:U; [|reflexivity].
      exfalso. revert Hc U.
      unfold JSString.is_a_z_0_9, JSString.is_lower, JSString.is_digit,
        JSString.is_upper, JSString.between.
      generalize (JSString.code c). intros n Hc U.
      rewrite !orb_true_iff, !andb_true_iff, !Nat.leb_le in *. lia. }
    rewrite L, Hc. f_equal. now apply IH.
Qed.

Lemma site_of_Some env srcs i item s :
  site_of env srcs i item = Some s ->
  exists raw,
    get_prop item "normalized_name" = Some (JStr raw)
    /\ normalized_name s = normalize raw
    /\ status s = ACTIVE.
Proof.
  unfold site_of.
  destruct (get_prop item "site_name"); [|discriminate].
  destruct (get_prop item "normalized_name") as [[| | | |raw| |]|];
    try discriminate.
  destruct (get_prop item "confidence_score"); [|discriminate].
  intros [= <-]. now exists raw.
Qed.

Lemma map_sites_nth env srcs items :
  forall i sites0,
    map_sites env srcs i items = Some sites0 ->
    List.length sites0 = List.length items
    /\ forall j s,
         nth_error sites0 j = Some s ->
         exists item,
           nth_error items j = Some item
           /\ site_of env srcs (i + j) item = Some s.
Proof.
  induction items as [|item items IH]; simpl; intros i sites0 H.
  - injection H as <-. split; [reflexivity|].
    intros [|j] s; discriminate.
  - destruct (site_of env srcs i item) as [s0|] eqn:E0; [|discriminate].
    destruct (map_sites env srcs (S i) items) as [ss|] eqn:E1;
      [|discriminate].
    injection H as <-. destruct (IH _ _ E1) as [Hlen Hnth].
    split; [simpl; now rewrite Hlen|].
    intros [|j] s; simpl.
    + intros [= <-]. exists item. now rewrite Nat.add_0_r.
    + intros Hs. destruct (Hnth _ _ Hs) as (it & Hit & Hsite).
      exists it. split; [assumption|].
      now rewrite Nat.add_succ_r.
Qed.

(** C5. Every record [performDiscovery] returns carries, as
    normalized_name, the normalized_name string of the response element at
    the same index, lower-cased and with every character outside [a-z0-9]
    removed; it consists of the characters a-z and 0-9 only. *)
Theorem performDiscovery_normalized_names :
  forall (generateContent : string -> ServiceReply) (env : ServiceEnv)
         (query : string) (known : list string)
         (newSites : list GamblingSite) (srcs : list string),
    performDiscovery JSON_parse generateContent env query known
    = Resolved newSites srcs ->
    exists response items,
      generateContent (contents query known) = Answer response
      /\ get_prop (parsed_result JSON_parse response) "extracted_sites"
         = Some (JArr items)
      /\ List.length newSites = List.length items
      /\ forall i s,
           nth_error newSites i = Some s ->
           JSString.all_chars JSString.is_a_z_0_9 (normalized_name s) = true
           /\ exists item raw,
                nth_error items i = Some item
                /\ get_prop item "normalized_name" = Some (JStr raw)
                /\ normalized_name s
                   = JSString.strip_non_a_z_0_9 (JSString.toLowerCase raw).
Proof.
  intros gen env query known newSites srcs. unfold performDiscovery.
  destruct (gen (contents query known)) as [response|e]; [|discriminate].
  destruct (get_prop (parsed_result JSON_parse response) "extracted_sites")
    as [[| | | | |items|]|] eqn:P; try discriminate.
  destruct (map_sites env (grounding_sources response) 0 items)
    as [sites0|] eqn:M; [|discriminate].
  intros [= <- <-]. exists response, items.
  destruct (map_sites_nth _ _ _ _ M) as [Hlen Hnth].
  repeat split; try assumption.
  - destruct (Hnth _ _ H) as (item & _ & Hsite).
    destruct (site_of_Some _ _ _ _ Hsite) as (raw & _ & -> & _).
    apply strip_only_a_z_0_9.
  - destruct (Hnth _ _ H) as (item & Hitem & Hsite).
    destruct (site_of_Some _ _ _ _ Hsite) as (raw & Hraw & Hn & _).
    now exists item, raw.
Qed.

(** C9. When the text of the response is not parseable JSON,
    [performDiscovery] does not throw: it returns no sites, together with
    the grounding sources of the response. *)
Theorem performDiscovery_unparseable :
  forall (generateContent : string -> ServiceReply) (env : ServiceEnv)
         (query : string) (known : list string)
         (response : GenerateContentResponse),
    generateContent (contents query known) = Answer response ->
    JSON_parse (text_argument response) = None ->
    performDiscovery JSON_parse generateContent env query known
    = Resolved [] (grounding_sources response).
Proof.
  intros gen env query known response Hgen Hparse.
  unfold performDiscovery, parsed_result. now rewrite Hgen, Hparse.
Qed.

(** Every record [performDiscovery] returns is ACTIVE and keyed by a
    string of [a-z0-9]. *)
Lemma performDiscovery_app_made generateContent env query known newSites
  srcs :
  performDiscovery JSON_parse generateContent env query known
  = Resolved newSites srcs ->
  Forall App.app_made newSites.
Proof.
  unfold performDiscovery.
  destruct (generateContent (contents query known)) as [response|e];
    [|discriminate].
  destruct (get_prop (parsed_result JSON_parse response) "extracted_sites")
    as [[| | | | |items|]|]; try discriminate.
  destruct (map_sites env (grounding_sources response) 0 items)
    as [sites0|] eqn:M; [|discriminate].
  intros [= <- <-]. apply Forall_forall. intros s Hin.
  apply In_nth_error in Hin. destruct Hin as [j Hj].
  destruct (map_sites_nth _ _ _ _ M) as [_ Hnth].
  destruct (Hnth _ _ Hj) as (item & _ & Hsite).
  destruct (site_of_Some _ _ _ _ Hsite) as (raw & _ & Hn & Hs).
  split.
  - rewrite Hs. discriminate.
  - rewrite Hn. apply strip_only_a_z_0_9.
Qed.

End ServiceFacts.

Lemma performDiscovery_sample :
  Service.performDiscovery Sample.parse (fun _ => Answer Sample.good_response)
    Sample.env "situs slot" []
  = Resolved
      [ mkSite "q1w2e3r4t" (JStr "Slot-88.COM") "slot88vip"
          "2024-05-01T10:00:00.000Z" "2024-05-01T10:00:00.000Z"
          (JNum 0.75%float) ACTIVE 3 ["https://example.org/a"%string] ]
      ["https://example.org/a"%string].
Proof. reflexivity. Qed.

(** Text that parses but has another shape is a different matter: on
    [null] the call throws, and [handleDiscovery] logs the error. *)
Lemma performDiscovery_wrong_shape_throws :
  Service.performDiscovery Sample.parse
    (fun _ => Answer (mkResponse Sample.grounded (Some "null"%string)))
    Sample.env "situs slot" []
  = Rejected (ErrorObject "Cannot read properties of undefined").
Proof. reflexivity. Qed.

Lemma performDiscovery_normalized_names_witness :
  exists response items,
    Answer Sample.good_response = Answer response
    /\ Service.get_prop (Service.parsed_result Sample.parse response)
         "extracted_sites" = Some (JArr items)
    /\ 1%nat = List.length items
    /\ forall i s,
         nth_error
           [ mkSite "q1w2e3r4t" (JStr "Slot-88.COM") "slot88vip"
               "2024-05-01T10:00:00.000Z" "2024-05-01T10:00:00.000Z"
               (JNum 0.75%float) ACTIVE 3 ["https://example.org/a"%string] ]
           i = Some s ->
         JSString.all_chars JSString.is_a_z_0_9 (normalized_name s) = true
         /\ exists item raw,
              nth_error items i = Some item
              /\ Service.get_prop item "normalized_name" = Some (JStr raw)
              /\ normalized_name s
                 = JSString.strip_non_a_z_0_9 (JSString.toLowerCase raw).
Proof.
  exact (@performDiscovery_normalized_names Sample.parse
           (fun _ => Answer Sample.good_response) Sample.env "situs slot" []
           _ _ performDiscovery_sample).
Defined.

Lemma performDiscovery_unparseable_witness :
  Service.performDiscovery Sample.parse
    (fun _ => Answer Sample.prose_response) Sample.env "situs slot"
    ["slot88com"%string]
  = Resolved [] ["https://example.org/a"%string].
Proof.
  apply (@performDiscovery_unparseable Sample.parse
           (fun _ => Answer Sample.prose_response) Sample.env "situs slot"
           ["slot88com"%string] Sample.prose_response);
    reflexivity.
Defined.

(** ** The autonomous loop *)

Section LoopFacts.
Import App Loop.

Variable JSON_parse : string -> option JSValue.

Local Abbreviation handle := (Loop.handle JSON_parse).
Local Abbreviation step := (Loop.step JSON_parse).
Local Abbreviation run := (Loop.run JSON_parse).

Local Abbreviation names := (map normalized_name).

Ltac by_cases :=
  repeat match goal with
         | |- context [if ?b then _ else _] => destruct b
         end;
  try reflexivity.

Lemma begin_isAutonomous now0 q st :
  isAutonomous (fst (handleDiscovery_begin now0 q st)) = isAutonomous st.
Proof. unfold handleDiscovery_begin. by_cases. Qed.

Lemma begin_sites now0 q st :
  sites (fst (handleDiscovery_begin now0 q st)) = sites st.
Proof. unfold handleDiscovery_begin. by_cases. Qed.

Lemma merge_discovered_isAutonomous now0 newSites st :
  isAutonomous (merge_discovered now0 newSites st) = isAutonomous st.
Proof. unfold merge_discovered. by_cases. Qed.

Lemma merge_discovered_sites now0 newSites st :
  sites (merge_discovered now0 newSites st) = unique_sites newSites (sites st).
Proof. unfold merge_discovered. by_cases. Qed.

Lemma settle_isAutonomous now0 t outcome st :
  isAutonomous (handleDiscovery_settle now0 t outcome st) = isAutonomous st.
Proof.
  unfold handleDiscovery_settle, handleDiscovery_outcome.
  destruct outcome as [newSites srcs|e]; cbn [isAutonomous setIsSearching].
  - destruct (closure_isAutonomous t);
      cbn [isAutonomous startCountdown setNextCycleCountdown
             setAutoCycleCount addLog setLogs];
      rewrite merge_discovered_isAutonomous; by_cases.
  - by_cases.
Qed.

Lemma settle_sites now0 t outcome st :
  sites (handleDiscovery_settle now0 t outcome st)
  = match outcome with
    | Resolved newSites _ => unique_sites newSites (sites st)
    | Rejected _ => sites st
    end.
Proof.
  unfold handleDiscovery_settle, handleDiscovery_outcome.
  destruct outcome as [newSites srcs|e]; cbn [sites setIsSearching].
  - destruct (closure_isAutonomous t);
      cbn [sites startCountdown setNextCycleCountdown
             setAutoCycleCount addLog setLogs];
      rewrite merge_discovered_sites; by_cases.
  - by_cases.
Qed.

Lemma call_handleDiscovery_facts a q w :
  isAutonomous (ui (call_handleDiscovery a q w)) = isAutonomous (ui w)
  /\ sites (ui (call_handleDiscovery a q w)) = sites (ui w)
  /\ evolved (call_handleDiscovery a q w) = evolved w
  /\ requested (call_handleDiscovery a q w) = requested w.
Proof.
  unfold call_handleDiscovery.
  pose proof (begin_isAutonomous (now a) q (ui w)) as HA.
  pose proof (begin_sites (now a) q (ui w)) as HS.
  destruct (handleDiscovery_begin (now a) q (ui w)) as [st [t|]];
    simpl in *; auto.
Qed.

(** The event itself starts nothing on behalf of the loop, and only
    [ClickAutoMode] writes the flag. *)
Lemma handle_facts a e w w1 :
  handle a e w = Some w1 ->
  evolved w1 = evolved w
  /\ (is_ClickAutoMode e = false ->
      isAutonomous (ui w1) = isAutonomous (ui w))
  /\ (is_TimerTick e = true -> isAutonomous (ui w) = true).
Proof.
  assert (Hend : forall w1, evolved w1 = evolved w ->
            isAutonomous (ui w1) = isAutonomous (ui w) ->
            is_TimerTick e = false ->
            evolved w1 = evolved w
            /\ (is_ClickAutoMode e = false ->
                isAutonomous (ui w1) = isAutonomous (ui w))
            /\ (is_TimerTick e = true -> isAutonomous (ui w) = true)).
  { intros w0 H1 H2 H3. rewrite H3. repeat split; auto; discriminate. }
  destruct e as [|q| |row| |i|i gen env]; simpl.
  - intros [= <-]. split; [reflexivity|]. split; discriminate.
  - destruct (isAutonomous (ui w)) eqn:A; [discriminate|].
    intros [= <-]. apply Hend; auto.
  - destruct (isAutonomous (ui w) || isSearching (ui w))%bool;
      [discriminate|].
    intros [= <-].
    destruct (call_handleDiscovery_facts a None w) as (HA & _ & HE & _).
    apply Hend; auto.
  - destruct (nth_error (sites (ui w)) row); [|discriminate].
    intros [= <-]. apply Hend; auto.
  - unfold interval_running.
    destruct (isAutonomous (ui w)) eqn:A; [|discriminate].
    destruct (0 <? nextCycleCountdown (ui w)); [|discriminate].
    intros [= <-]. split; [reflexivity|]. split; intros _; simpl; auto.
  - destruct (nth_error (inflight w) i) as [t|]; [|discriminate].
    destruct (awaiting t); [|discriminate].
    intros [= <-]. apply Hend; auto.
  - destruct (nth_error (inflight w) i) as [t|]; [|discriminate].
    destruct (awaiting t); [discriminate|].
    intros [= <-]. apply Hend; auto. apply settle_isAutonomous.
Qed.

(** The autonomous effect leaves the flag alone, and hands a query to
    [handleDiscovery] only in a render whose flag is on. *)
Lemma autonomous_effect_facts a before w1 w' :
  autonomous_effect a before w1 = Some w' ->
  isAutonomous (ui w') = isAutonomous (ui w1)
  /\ (isAutonomous (ui w1) = false -> w' = w1).
Proof.
  unfold autonomous_effect.
  destruct (same_deps before (ui w1)); [intros [= <-]; now split|].
  destruct (isAutonomous (ui w1)) eqn:A; simpl.
  - destruct (negb (isSearching (ui w1)) && (nextCycleCountdown (ui w1) =? 0))%bool.
    + destruct (next_query a (ui w1)) as [nextQuery|]; [|discriminate].
      intros [= <-]. simpl. split; [|discriminate].
      match goal with
      | |- isAutonomous (ui (call_handleDiscovery ?a ?q ?w)) = _ =>
          destruct (call_handleDiscovery_facts a q w) as (HA & _)
      end.
      rewrite HA. simpl. exact A.
    + intros [= <-]. now split.
  - intros [= <-]. now split.
Qed.

Lemma step_facts a e w w' :
  step a e w = Some w' ->
  (is_ClickAutoMode e = false -> isAutonomous (ui w') = isAutonomous (ui w))
  /\ (isAutonomous (ui w') = false -> evolved w' = evolved w)
  /\ (is_TimerTick e = true -> isAutonomous (ui w) = true).
Proof.
  unfold step. destruct (handle a e w) as [w1|] eqn:H; [|discriminate].
  intros E. destruct (handle_facts _ _ _ H) as (HE & HA & HT).
  destruct (autonomous_effect_facts _ _ _ E) as (HA' & Hoff).
  repeat split.
  - intros Hc. now rewrite HA', HA.
  - intros Hf. rewrite HA' in Hf. now rewrite (Hoff Hf).
  - exact HT.
Qed.

(** C8. From a state in which autonomous mode is off, along any run in
    which the mode button is not clicked, the mode stays off, the
    autonomous effect hands no query to [handleDiscovery], and no tick of
    the countdown interval occurs.  In any state whose flag is off a tick
    cannot occur, and a step that ends with the flag off never adds a
    query of the loop. *)
Theorem autonomous_loop_idle_while_off :
  forall (trace : list (Ambient * Event)) (w w' : World),
    isAutonomous (ui w) = false ->
    forallb (fun ae => negb (is_ClickAutoMode (snd ae))) trace = true ->
    run trace w = Some w' ->
    isAutonomous (ui w') = false
    /\ evolved w' = evolved w
    /\ forallb (fun ae => negb (is_TimerTick (snd ae))) trace = true
    /\ (forall a w0,
           isAutonomous (ui w0) = false -> handle a TimerTick w0 = None)
    /\ (forall a e w0 w1,
           step a e w0 = Some w1 ->
           isAutonomous (ui w1) = false -> evolved w1 = evolved w0).
Proof.
  intros trace w w' Hoff Hno Hrun.
  assert (Htick : forall a w0, isAutonomous (ui w0) = false ->
                               handle a TimerTick w0 = None).
  { intros a w0 H. simpl. unfold interval_running. now rewrite H. }
  assert (Hstep : forall a e w0 w1, step a e w0 = Some w1 ->
            isAutonomous (ui w1) = false -> evolved w1 = evolved w0).
  { intros a e w0 w1 H. now apply (step_facts _ _ _ H). }
  cut (isAutonomous (ui w') = false /\ evolved w' = evolved w
       /\ forallb (fun ae => negb (is_TimerTick (snd ae))) trace = true).
  { intros (H1 & H2 & H3). repeat split; auto. }
  clear Htick. revert w Hoff Hno Hrun.
  induction trace as [|[a e] trace IH]; simpl; intros w Hoff Hno Hrun.
  - injection Hrun as <-. now repeat split.
  - apply andb_prop in Hno. destruct Hno as [He Hno].
    apply negb_true_iff in He.
    destruct (step a e w) as [w1|] eqn:S1; [|discriminate].
    destruct (step_facts _ _ _ S1) as (HA & HE & HT).
    assert (Hoff1 : isAutonomous (ui w1) = false) by (rewrite HA; auto).
    destruct (IH _ Hoff1 Hno Hrun) as (H1 & H2 & H3).
    repeat split.
    + exact H1.
    + rewrite H2. now apply HE.
    + rewrite H3, andb_true_r. apply negb_true_iff.
      destruct (is_TimerTick e) eqn:T; [|reflexivity].
      rewrite (HT eq_refl) in Hoff. discriminate.
Qed.

(** In the transition system, too, the registry only ever holds
    pairwise-distinct keys. *)
Lemma handle_sites a e w w1 :
  handle a e w = Some w1 ->
  sites (ui w1) = sites (ui w)
  \/ exists op, sites (ui w1) = apply_op (sites (ui w)) op.
Proof.
  destruct e as [|q| |row| |i|i gen env]; simpl.
  - intros [= <-]. left. simpl. by_cases.
  - destruct (isAutonomous (ui w)); [discriminate|].
    intros [= <-]. now left.
  - destruct (isAutonomous (ui w) || isSearching (ui w))%bool;
      [discriminate|].
    intros [= <-]. left. apply call_handleDiscovery_facts.
  - destruct (nth_error (sites (ui w)) row) as [site|]; [|discriminate].
    intros [= <-]. right. now exists (Toggled (id site)).
  - destruct (interval_running (ui w)); [|discriminate].
    intros [= <-]. now left.
  - destruct (nth_error (inflight w) i) as [t|]; [|discriminate].
    destruct (awaiting t); [|discriminate].
    intros [= <-]. now left.
  - destruct (nth_error (inflight w) i) as [t|]; [|discriminate].
    destruct (awaiting t); [discriminate|].
    intros [= <-]. cbn [ui]. rewrite settle_sites.
    destruct (Service.performDiscovery _ _ _ _ _) as [newSites srcs|e];
      [right|now left].
    now exists (Discovered newSites).
Qed.

Lemma autonomous_effect_sites a before w1 w' :
  autonomous_effect a before w1 = Some w' -> sites (ui w') = sites (ui w1).
Proof.
  unfold autonomous_effect.
  destruct (same_deps before (ui w1)); [now intros [= <-]|].
  destruct (_ && _)%bool; [|now intros [= <-]].
  destruct (next_query a (ui w1)) as [nextQuery|]; [|discriminate].
  intros [= <-]. simpl.
  match goal with
  | |- sites (ui (call_handleDiscovery ?a ?q ?w)) = _ =>
      destruct (call_handleDiscovery_facts a q w) as (_ & HS & _)
  end.
  rewrite HS. reflexivity.
Qed.

Lemma run_keys_distinct trace :
  forall w w',
    NoDup (names (sites (ui w))) ->
    run trace w = Some w' -> NoDup (names (sites (ui w'))).
Proof.
  induction trace as [|[a e] trace IH]; simpl; intros w w' Hnd Hrun.
  - now injection Hrun as <-.
  - destruct (step a e w) as [w1|] eqn:S1; [|discriminate].
    apply (IH w1 w'); [|assumption].
    unfold step in S1. destruct (handle a e w) as [w0|] eqn:H0;
      [|discriminate].
    rewrite (autonomous_effect_sites _ _ _ S1).
    destruct (handle_sites _ _ _ H0) as [->|[op ->]].
    + assumption.
    + now apply apply_op_NoDup.
Qed.

(** The registry of the running application holds only records the
    application made: none is FLAGGED, every key is made of [a-z0-9]; so
    on it a second toggle of the same id always undoes the first. *)
Lemma handle_app_made a e w w1 :
  handle a e w = Some w1 ->
  Forall app_made (sites (ui w)) -> Forall app_made (sites (ui w1)).
Proof.
  destruct e as [|q| |row| |i|i gen env]; simpl.
  - intros [= <-]. simpl. by_cases; auto.
  - destruct (isAutonomous (ui w)); [discriminate|].
    now intros [= <-].
  - destruct (isAutonomous (ui w) || isSearching (ui w))%bool;
      [discriminate|].
    intros [= <-].
    destruct (call_handleDiscovery_facts a None w) as (_ & -> & _).
    auto.
  - destruct (nth_error (sites (ui w)) row) as [site|]; [|discriminate].
    intros [= <-]. apply toggleStatus_app_made.
  - destruct (interval_running (ui w)); [|discriminate].
    now intros [= <-].
  - destruct (nth_error (inflight w) i) as [t|]; [|discriminate].
    destruct (awaiting t); [|discriminate].
    now intros [= <-].
  - destruct (nth_error (inflight w) i) as [t|]; [|discriminate].
    destruct (awaiting t); [discriminate|].
    intros [= <-] H. cbn [ui]. rewrite settle_sites.
    destruct (Service.performDiscovery _ _ _ _ _) as [newSites srcs|e0]
      eqn:P; [|assumption].
    apply performDiscovery_app_made in P.
    apply Forall_forall. intros r Hr.
    destruct (unique_sites_incl _ _ _ Hr) as [Hin|Hin].
    + now apply (proj1 (Forall_forall _ _) P).
    + now apply (proj1 (Forall_forall _ _) H).
Qed.

Lemma run_app_made trace :
  forall w w',
    Forall app_made (sites (ui w)) ->
    run trace w = Some w' -> Forall app_made (sites (ui w')).
Proof.
  induction trace as [|[a e] trace IH]; simpl; intros w w' Hw Hrun.
  - now injection Hrun as <-.
  - destruct (step a e w) as [w1|] eqn:S1; [|discriminate].
    apply (IH w1 w'); [|assumption].
    unfold Loop.step in S1. destruct (handle a e w) as [w0|] eqn:H0;
      [|discriminate].
    rewrite (autonomous_effect_sites _ _ _ S1).
    eapply handle_app_made; eassumption.
Qed.

(** X4. In every state the component reaches, the keys of the registry are
    pairwise distinct, every record is one the application made (not
    FLAGGED, key of [a-z0-9]), and toggling any id twice gives the
    registry back. *)
Lemma running_registry_toggle_twice trace w id0 :
  run trace Loop.start = Some w ->
  NoDup (names (sites (ui w)))
  /\ Forall app_made (sites (ui w))
  /\ toggleStatus id0 (toggleStatus id0 (sites (ui w))) = sites (ui w).
Proof.
  intros Hrun.
  assert (Hmade : Forall app_made (sites (ui w))).
  { eapply run_app_made; [|eassumption]. constructor. }
  repeat split.
  - eapply run_keys_distinct; [|eassumption]. constructor.
  - assumption.
  - apply toggleStatus_twice. intros s Hin _.
    now apply (proj1 (Forall_forall _ _) Hmade).
Qed.

End LoopFacts.

Lemma autonomous_loop_idle_while_off_witness :
  exists w',
    Loop.run Sample.parse Sample.by_hand Sample.switched_off = Some w'
    /\ isAutonomous (ui w') = false
    /\ evolved w' = ["situs slot gacor terbaru 2024"%string]
    /\ requested w'
       = [ "situs judi slot online"; "situs judi slot online";
           "situs slot gacor terbaru 2024" ]%string.
Proof.
  destruct (Loop.run Sample.parse Sample.by_hand Sample.switched_off) as [w'|] eqn:E.
  - exists w'. split; [reflexivity|].
    destruct (@autonomous_loop_idle_while_off Sample.parse Sample.by_hand
                Sample.switched_off w' eq_refl eq_refl E)
      as (H1 & H2 & _).
    repeat split; [exact H1|exact H2|].
    vm_compute in E. injection E as <-. reflexivity.
  - vm_compute in E. discriminate.
Defined.

(** What switching off does not undo: a cycle the loop started before the
    switch still sends its request, and when it completes it counts
    itself and sets the countdown, which then stands still. *)
Lemma cycle_in_flight_runs_to_completion :
  exists w',
    Loop.run Sample.parse Sample.switch_off_early Loop.start = Some w'
    /\ isAutonomous (ui w') = false
    /\ evolved w' = ["situs slot gacor terbaru 2024"%string]
    /\ requested w' = ["situs slot gacor terbaru 2024"%string]
    /\ autoCycleCount (ui w') = 1
    /\ nextCycleCountdown (ui w') = 15
    /\ Loop.handle Sample.parse (Sample.at_ "10:00:04") TimerTick w' = None.
Proof.
  eexists. split; [vm_compute; reflexivity|].
  repeat split.
Qed.

(** ** More on the merge: order, values and the count it reports *)

Section MergeOrder.
Import App.

Local Abbreviation names := (map normalized_name).
Local Abbreviation ins :=
  (fun (m : JSMap.t GamblingSite) e => JSMap.set (fst e) (snd e) m).

Lemma existsb_eqb_In k seen :
  existsb (String.eqb k) seen = true <-> In k seen.
Proof.
  rewrite existsb_exists. split.
  - intros (x & Hx & E). apply String.eqb_eq in E. now subst.
  - intros H. exists k. split; [assumption|apply String.eqb_refl].
Qed.

Lemma distinct_same_seen l :
  forall s1 s2,
    (forall x, In x s1 <-> In x s2) ->
    Keys.distinct s1 l = Keys.distinct s2 l.
Proof.
  induction l as [|k r IH]; simpl; intros s1 s2 H.
  - reflexivity.
  - destruct (existsb (String.eqb k) s1) eqn:E1;
      destruct (existsb (String.eqb k) s2) eqn:E2.
    + now apply IH.
    + apply existsb_eqb_In in E1. apply H, existsb_eqb_In in E1. congruence.
    + apply existsb_eqb_In in E2. apply H, existsb_eqb_In in E2. congruence.
    + f_equal. apply IH. intros x. simpl. rewrite H. tauto.
Qed.

Lemma distinct_In x l :
  forall seen, In x (Keys.distinct seen l) <-> In x l /\ ~ In x seen.
Proof.
  induction l as [|k r IH]; simpl; intros seen.
  - tauto.
  - destruct (existsb (String.eqb k) seen) eqn:E.
    + apply existsb_eqb_In in E. rewrite IH.
      split; [tauto|]. intros [[->|H] Hn]; [contradiction|tauto].
    + assert (Hk : ~ In k seen).
      { intros H. apply existsb_eqb_In in H. congruence. }
      simpl. rewrite IH. simpl. split.
      * intros [->|[H Hn]]; [tauto|]. split; [tauto|]. tauto.
      * intros [[->|H] Hn]; [now left|].
        destruct (string_dec k x) as [->|Hne]; [now left|right].
        split; [assumption|]. intros [?|?]; contradiction.
Qed.

Lemma distinct_NoDup l : forall seen, NoDup (Keys.distinct seen l).
Proof.
  induction l as [|k r IH]; simpl; intros seen.
  - constructor.
  - destruct (existsb (String.eqb k) seen); [apply IH|].
    constructor; [|apply IH].
    rewrite distinct_In. simpl. tauto.
Qed.

Lemma keys_fold_distinct (es : list (string * GamblingSite)) :
  forall m,
    JSMap.keys (fold_left ins es m)
    = JSMap.keys m ++ Keys.distinct (JSMap.keys m) (map fst es).
Proof.
  induction es as [|[k v] es IH]; simpl; intros m.
  - now rewrite app_nil_r.
  - rewrite IH.
    destruct (existsb (String.eqb k) (JSMap.keys m)) eqn:E.
    + apply existsb_eqb_In in E.
      now rewrite (@keys_set_present _ k v m E).
    + assert (Hk : ~ In k (JSMap.keys m)).
      { intros H. apply existsb_eqb_In in H. congruence. }
      rewrite (@set_absent _ k v m Hk). unfold JSMap.keys at 1 2.
      rewrite map_app, <- app_assoc. simpl. do 2 f_equal.
      apply distinct_same_seen. intros x.
      rewrite in_app_iff. simpl. tauto.
Qed.

Lemma unique_sites_names_distinct newSites prev :
  names (unique_sites newSites prev)
  = Keys.distinct [] (names (newSites ++ prev)).
Proof.
  rewrite unique_sites_names. unfold JSMap.of_entries.
  rewrite keys_fold_distinct. simpl. now rewrite map_map.
Qed.

(** X1. The merged registry, completely: its keys are the keys of
    [newSites] followed by those of [prev], each at its first occurrence,
    so the keys the cycle brought come before the older ones; under each
    key stands the last record of [newSites] followed by [prev] that
    carries it. *)
Theorem merge_order_and_values :
  forall newSites prev : list GamblingSite,
    map Some (unique_sites newSites prev)
    = map (fun k => record_of k (newSites ++ prev))
        (Keys.distinct [] (names (newSites ++ prev))).
Proof.
  intros newSites prev.
  rewrite <- unique_sites_names_distinct, map_map.
  apply map_ext_in. intros r Hr. symmetry. now apply unique_sites_In.
Qed.

Lemma fresh_count newSites prev :
  NoDup (names prev) ->
  List.length (unique_sites newSites prev)
  = (List.length prev
     + List.length (Keys.distinct (names prev) (names newSites)))%nat.
Proof.
  intros Hnd.
  rewrite <- (length_map normalized_name (unique_sites newSites prev)).
  rewrite <- (length_map normalized_name prev), <- length_app.
  set (fresh := Keys.distinct (names prev) (names newSites)).
  assert (Hboth : NoDup (names prev ++ fresh)).
  { apply NoDup_app; [assumption|apply distinct_NoDup|].
    intros x Hx Hf. apply distinct_In in Hf. tauto. }
  assert (Hmem : forall x, In x (names (unique_sites newSites prev))
                           <-> In x (names prev ++ fresh)).
  { intros x. rewrite unique_sites_In_names, map_app, !in_app_iff.
    unfold fresh. rewrite distinct_In.
    destruct (in_dec string_dec x (names prev)); tauto. }
  apply Nat.le_antisymm; apply NoDup_incl_length;
    try assumption; try apply unique_sites_NoDup;
    intros x Hx; now apply Hmem.
Qed.

(** X2. The number a discovery cycle reports.  When the keys of the registry
    are pairwise distinct, the registry grows by the number of distinct
    keys of [newSites] that it did not hold; the cycle logs that number
    as learned when it is positive and logs the warning that nothing new
    was found exactly when every key of [newSites] was already there. *)
Theorem merge_reports_new_keys :
  forall (now : string) (newSites : list GamblingSite) (st : State),
    NoDup (names (sites st)) ->
    let fresh := Keys.distinct (names (sites st)) (names newSites) in
    let st' := merge_discovered now newSites st in
    count (sites st') - count (sites st) = count fresh
    /\ (fresh = [] <-> incl (names newSites) (names (sites st)))
    /\ hd_error (logs st')
       = Some (match fresh with
               | [] =>
                   mkLog now "No new unique signatures found in this cycle."
                     warning
               | _ :: _ =>
                   mkLog now
                     ("Learned " ++ show (count fresh)
                      ++ " new unique site signatures.")%string success
               end).
Proof.
  intros now0 newSites st Hnd fresh st'. subst st'.
  pose proof (@fresh_count newSites (sites st) Hnd) as Hlen.
  fold fresh in Hlen.
  assert (Hcount : count (unique_sites newSites (sites st))
                   - count (sites st) = count fresh).
  { unfold count. rewrite Hlen. lia. }
  split; [|split].
  - rewrite merge_discovered_sites. exact Hcount.
  - split.
    + intros E x Hx.
      destruct (in_dec string_dec x (names (sites st))) as [H|H];
        [assumption|].
      assert (Hf : In x fresh) by (apply distinct_In; tauto).
      rewrite E in Hf. contradiction.
    + intros H. destruct fresh as [|x r] eqn:E; [reflexivity|].
      assert (Hf : In x (Keys.distinct (names (sites st)) (names newSites)))
        by (fold fresh; rewrite E; now left).
      apply distinct_In in Hf. destruct Hf as [Hx Hn]. now apply H in Hx.
  - unfold merge_discovered. cbv zeta. rewrite Hcount.
    destruct fresh as [|x r]; reflexivity.
Qed.

End MergeOrder.

Lemma merge_reports_new_keys_witness :
  hd_error
    (logs (App.merge_discovered "10:00:03" Sample.discovered
             (App.setSites (fun _ => Sample.registry) App.initial)))
  = Some (mkLog "10:00:03" "Learned 1 new unique site signatures." success).
Proof.
  apply (@merge_reports_new_keys "10:00:03" Sample.discovered
           (App.setSites (fun _ => Sample.registry) App.initial)).
  repeat constructor; simpl; intuition discriminate.
Defined.

(** ** More on the status toggle and on the key *)

Section ToggleOrder.
Import App.

(** X3. Toggles of two ids commute, a toggle keeps the length of the registry
    and the id of every row, and a toggle of an id that no record carries
    changes nothing. *)
Theorem toggleStatus_composes :
  forall (a b : string) (reg : list GamblingSite),
    toggleStatus a (toggleStatus b reg) = toggleStatus b (toggleStatus a reg)
    /\ List.length (toggleStatus a reg) = List.length reg
    /\ map id (toggleStatus a reg) = map id reg
    /\ ((forall s, In s reg -> id s <> a) -> toggleStatus a reg = reg).
Proof.
  intros a b reg. unfold toggleStatus. repeat split.
  - rewrite !map_map. apply map_ext. intros s.
    destruct (String.eqb (id s) b) eqn:Eb;
      destruct (String.eqb (id s) a) eqn:Ea; simpl;
      rewrite ?Ea, ?Eb; reflexivity.
  - apply length_map.
  - rewrite map_map. apply map_ext. intros s.
    now destruct (String.eqb (id s) a).
  - intros H. rewrite <- (map_id reg) at 2. apply map_ext_in.
    intros s Hin. destruct (String.eqb (id s) a) eqn:E; [|reflexivity].
    apply String.eqb_eq in E. now apply H in Hin.
Qed.

(** X5. Normalising is idempotent and never lengthens: the key of a record
    is its own normal form. *)
Theorem normalize_idempotent :
  forall raw : string,
    Service.normalize (Service.normalize raw) = Service.normalize raw
    /\ (String.length (Service.normalize raw) <= String.length raw)%nat.
Proof.
  intros raw. split.
  - apply normalize_fixed. apply strip_only_a_z_0_9.
  - unfold Service.normalize. induction raw as [|c r IH]; simpl.
    + constructor.
    + destruct (JSString.is_a_z_0_9 (JSString.lower_char c)); simpl; lia.
Qed.

End ToggleOrder.

(** ** More on the discovery service *)

Section ServiceShape.
Import Service.

Variable JSON_parse : string -> option JSValue.

Lemma site_of_keyed env srcs i item :
  (exists s, site_of env srcs i item = Some s)
  <-> Shape.keyed_object item = true.
Proof.
  unfold site_of, Shape.keyed_object, get_prop.
  destruct item as [| |b|x|str|items|props]; simpl;
    try (split; [intros [s H]; discriminate|discriminate]).
  destruct (own_property "normalized_name" props);
    try (split; [intros [s H]; discriminate|discriminate]).
  split; [reflexivity|]. intros _. eexists. reflexivity.
Qed.

Lemma map_sites_keyed env srcs items :
  forall i,
    (exists sites0, map_sites env srcs i items = Some sites0)
    <-> forallb Shape.keyed_object items = true.
Proof.
  induction items as [|item items IH]; simpl; intros i.
  - split; [reflexivity|]. intros _. now exists [].
  - rewrite andb_true_iff, <- (IH (S i)), <- (site_of_keyed env srcs i item).
    destruct (site_of env srcs i item) as [s|].
    + destruct (map_sites env srcs (S i) items) as [ss|].
      * split; [|intros _; now eexists].
        intros _. split; now eexists.
      * split; [intros [x H]; discriminate|].
        intros [_ [x H]]. discriminate.
    + split; [intros [x H]; discriminate|].
      intros [[x H] _]. discriminate.
Qed.

(** X6. When [performDiscovery] returns and when it throws.  It returns
    exactly when the service answers, the parsed result (or the stand-in
    for unparseable text) has an array under [extracted_sites], and every
    element of the array is an object with a string [normalized_name];
    a missing [site_name] or [confidence_score] does not make it throw.
    It then returns one record for each element and the grounding
    sources of the response. *)
Theorem performDiscovery_returns_iff :
  forall (generateContent : string -> ServiceReply) (env : ServiceEnv)
         (query : string) (known : list string),
    ((exists newSites srcs,
         performDiscovery JSON_parse generateContent env query known
         = Resolved newSites srcs)
     <-> exists response items,
           generateContent (contents query known) = Answer response
           /\ get_prop (parsed_result JSON_parse response) "extracted_sites"
              = Some (JArr items)
           /\ forallb Shape.keyed_object items = true)
    /\ forall newSites srcs,
         performDiscovery JSON_parse generateContent env query known
         = Resolved newSites srcs ->
         exists response items,
           generateContent (contents query known) = Answer response
           /\ get_prop (parsed_result JSON_parse response) "extracted_sites"
              = Some (JArr items)
           /\ List.length newSites = List.length items
           /\ srcs = grounding_sources response.
Proof.
  intros gen env query known. unfold performDiscovery. split.
  - split.
    + intros (newSites & srcs & H).
      destruct (gen (contents query known)) as [response|e]; [|discriminate].
      destruct (get_prop (parsed_result JSON_parse response)
                  "extracted_sites") as [[| | | | |items|]|] eqn:P;
        try discriminate.
      exists response, items. repeat split; try assumption.
      apply (map_sites_keyed env (grounding_sources response) items 0).
      destruct (map_sites env (grounding_sources response) 0 items);
        [now eexists|discriminate].
    + intros (response & items & -> & -> & K).
      apply (map_sites_keyed env (grounding_sources response) items 0) in K.
      destruct K as [sites0 ->]. now eexists; eexists.
  - intros newSites srcs H.
    destruct (gen (contents query known)) as [response|e]; [|discriminate].
    destruct (get_prop (parsed_result JSON_parse response)
                "extracted_sites") as [[| | | | |items|]|] eqn:P;
      try discriminate.
    destruct (map_sites env (grounding_sources response) 0 items)
      as [sites0|] eqn:M; [|discriminate].
    injection H as <- <-. exists response, items.
    repeat split; try assumption.
    now destruct (map_sites_nth _ _ _ _ M).
Qed.

Lemma site_of_fields env srcs i item s :
  site_of env srcs i item = Some s ->
  id s = random_id env i
  /\ status s = ACTIVE
  /\ 1 <= source_count s <= 5
  /\ sources s = firstn 3 srcs
  /\ first_seen s = iso_now env
  /\ last_seen s = iso_now env
  /\ get_prop item "site_name" = Some (site_name s)
  /\ get_prop item "confidence_score" = Some (confidence_score s).
Proof.
  unfold site_of.
  destruct (get_prop item "site_name") as [name|]; [|discriminate].
  destruct (get_prop item "normalized_name") as [[| | | |raw| |]|];
    try discriminate.
  destruct (get_prop item "confidence_score") as [score|]; [|discriminate].
  intros [= <-]. simpl. repeat split.
  - pose proof (Z.mod_pos_bound (random_draw env i) 5). lia.
  - pose proof (Z.mod_pos_bound (random_draw env i) 5). lia.
Qed.

(** X7. The records [performDiscovery] returns.  The record at each
    index is made from the element of [extracted_sites] at that index:
    its [site_name] and [confidence_score] are whatever that element
    holds under those names, [undefined] included.  It is ACTIVE, has a
    source count from 1 to 5, carries the first three grounding sources
    at most, and has the time of the call as first and last sighting. *)
Theorem performDiscovery_record_fields :
  forall (generateContent : string -> ServiceReply) (env : ServiceEnv)
         (query : string) (known : list string)
         (newSites : list GamblingSite) (srcs : list string)
         (i : nat) (s : GamblingSite),
    performDiscovery JSON_parse generateContent env query known
    = Resolved newSites srcs ->
    nth_error newSites i = Some s ->
    exists response items item,
      generateContent (contents query known) = Answer response
      /\ get_prop (parsed_result JSON_parse response) "extracted_sites"
         = Some (JArr items)
      /\ nth_error items i = Some item
      /\ get_prop item "site_name" = Some (site_name s)
      /\ get_prop item "confidence_score" = Some (confidence_score s)
      /\ id s = random_id env i
      /\ status s = ACTIVE
      /\ 1 <= source_count s <= 5
      /\ sources s = firstn 3 srcs
      /\ (List.length (sources s) <= 3)%nat
      /\ first_seen s = iso_now env
      /\ last_seen s = iso_now env.
Proof.
  intros gen env query known newSites srcs i s. unfold performDiscovery.
  destruct (gen (contents query known)) as [response|e]; [|discriminate].
  destruct (get_prop (parsed_result JSON_parse response) "extracted_sites")
    as [[| | | | |items|]|] eqn:P; try discriminate.
  destruct (map_sites env (grounding_sources response) 0 items)
    as [sites0|] eqn:M; [|discriminate].
  intros [= <- <-] Hi.
  destruct (map_sites_nth _ _ _ _ M) as [_ Hnth].
  destruct (Hnth _ _ Hi) as (item & Hitem & Hsite). simpl in Hsite.
  destruct (site_of_fields _ _ _ _ Hsite)
    as (H0 & H1 & H2 & H3 & H4 & H5 & H6 & H7).
  exists response, items, item.
  repeat split; try assumption; try lia.
  rewrite H3, length_firstn. lia.
Qed.

End ServiceShape.

Section Prompt.
Import Service.

Lemma firstn_firstn_same (A : Type) (n : nat) (l : list A) :
  firstn n (firstn n l) = firstn n l.
Proof. rewrite firstn_firstn. now rewrite Nat.min_id. Qed.

(** X9. Of the known patterns only the first twenty reach the request, and
    with no known pattern the request carries no context paragraph. *)
Theorem contents_first_20_patterns :
  forall (query : string) (known : list string),
    contents query known = contents query (firstn 20 known)
    /\ contextInstruction [] = ""%string
    /\ ((20 <= List.length known)%nat ->
        forall more, contents query (known ++ more) = contents query known).
Proof.
  intros query known.
  assert (H : forall l, contextInstruction l
                        = contextInstruction (firstn 20 l)).
  { intros l. unfold contextInstruction. rewrite firstn_firstn_same.
    destruct l; reflexivity. }
  repeat split.
  - unfold contents. now rewrite (H known).
  - intros Hlen more. unfold contents.
    rewrite (H (known ++ more)), (H known).
    rewrite firstn_app.
    replace (20 - List.length known)%nat with 0%nat by lia.
    simpl. now rewrite app_nil_r.
Qed.

Lemma filter_Boolean_In s xs :
  In s (filter_Boolean xs) <-> In (Some s) xs /\ s <> ""%string.
Proof.
  induction xs as [|[[|c r]|] xs IH]; simpl.
  - tauto.
  - rewrite IH. split; [tauto|]. intros [[[= <-]|H] Hn]; tauto.
  - rewrite IH. split.
    + intros [<-|[H Hn]]; [split; [now left|discriminate]|tauto].
    + intros [[[= <-]|H] Hn]; [now left|tauto].
  - rewrite IH. split; [tauto|]. intros [[H|H] Hn]; [discriminate|tauto].
Qed.

(** X8. The grounding sources are the non-empty URIs of the chunks of the
    first candidate, and nothing else; a response without candidates,
    metadata or chunks has none. *)
Theorem grounding_sources_uris :
  forall (response : GenerateContentResponse) (s : string),
    In s (grounding_sources response)
    <-> s <> ""%string
        /\ exists c rest gm chunks chunk w,
             candidates response = Some (c :: rest)
             /\ groundingMetadata c = Some gm
             /\ groundingChunks gm = Some chunks
             /\ In chunk chunks
             /\ web chunk = Some w
             /\ uri w = Some s.
Proof.
  intros response s. unfold grounding_sources. split.
  - destruct (candidates response) as [[|c rest]|]; try contradiction.
    destruct (groundingMetadata c) as [gm|] eqn:G; [|contradiction].
    destruct (groundingChunks gm) as [chunks|] eqn:C; [|contradiction].
    rewrite filter_Boolean_In, in_map_iff.
    intros [(chunk & Hu & Hin) Hn]. split; [assumption|].
    unfold chunk_uri in Hu. destruct (web chunk) as [w|] eqn:W;
      [|discriminate].
    exists c, rest, gm, chunks, chunk, w. repeat split; assumption.
  - intros (Hn & c & rest & gm & chunks & chunk & w
            & -> & -> & -> & Hin & W & U).
    rewrite filter_Boolean_In, in_map_iff. split; [|assumption].
    exists chunk. split; [|assumption]. unfold chunk_uri. now rewrite W.
Qed.

End Prompt.

Lemma performDiscovery_record_fields_witness :
  exists response items item,
    Answer Sample.good_response = Answer response
    /\ Service.get_prop (Service.parsed_result Sample.parse response)
         "extracted_sites" = Some (JArr items)
    /\ nth_error items 0 = Some item
    /\ Service.get_prop item "site_name" = Some (site_name Sample.found)
    /\ Service.get_prop item "confidence_score"
       = Some (confidence_score Sample.found)
    /\ id Sample.found = random_id Sample.env 0
    /\ status Sample.found = ACTIVE
    /\ 1 <= source_count Sample.found <= 5
    /\ sources Sample.found = firstn 3 ["https://example.org/a"%string]
    /\ (List.length (sources Sample.found) <= 3)%nat
    /\ first_seen Sample.found = iso_now Sample.env
    /\ last_seen Sample.found = iso_now Sample.env.
Proof.
  exact (@performDiscovery_record_fields Sample.parse
           (fun _ => Answer Sample.good_response) Sample.env "situs slot" []
           [Sample.found] ["https://example.org/a"%string] 0 Sample.found
           performDiscovery_sample eq_refl).
Defined.

(** ** Invariants of the running component *)

Section Running.
Import App Loop.

Variable JSON_parse : string -> option JSValue.

Local Abbreviation handle := (Loop.handle JSON_parse).
Local Abbreviation step := (Loop.step JSON_parse).
Local Abbreviation run := (Loop.run JSON_parse).

#[local] Arguments firstn : simpl never.

Ltac split_if :=
  repeat match goal with
         | |- context [if ?b then _ else _] => destruct b eqn:?
         end.

Ltac bounds :=
  repeat split; simpl; rewrite ?length_firstn; try lia; try reflexivity;
  try assumption.

(** A call of [handleDiscovery] made while nothing is suspended. *)
Lemma call_handleDiscovery_holds a q w :
  Invariant.holds w ->
  inflight w = [] ->
  autoCycleCount (ui w)
  + (if isAutonomous (ui w) then 1 else 0) <= count (evolved w) ->
  Invariant.holds (call_handleDiscovery a q w).
Proof.
  destruct w as [[s l se an au q0 cp c n] inf ev rq].
  unfold Invariant.holds, Invariant.one_at_a_time,
    Invariant.autonomous_inflight, call_handleDiscovery,
    handleDiscovery_begin, count.
  simpl. intros (H1 & H2 & H3 & H4 & H5) -> Hroom. simpl in *.
  destruct H1 as [-> ->]. rewrite orb_false_r.
  destruct (JSString.blank (query_or q q0)); simpl.
  - bounds.
  - split_if; destruct au; bounds.
Qed.

Lemma handle_holds a e w w1 :
  Invariant.holds w -> handle a e w = Some w1 -> Invariant.holds w1.
Proof.
  intros Hw. destruct e as [|q| |row| |i|i gen env]; simpl.
  - intros [= <-].
    destruct w as [[s l se an au q0 cp c n] inf ev rq].
    unfold Invariant.holds, Invariant.one_at_a_time,
      Invariant.autonomous_inflight in *.
    simpl in *. destruct Hw as (H1 & H2 & H3 & H4 & H5).
    destruct au; simpl; (split; [exact H1|]); bounds.
  - destruct (isAutonomous (ui w)); [discriminate|]. intros [= <-].
    destruct w as [[s l se an au q0 cp c n] inf ev rq]. exact Hw.
  - destruct (isAutonomous (ui w)) eqn:A; [discriminate|].
    destruct (isSearching (ui w)) eqn:S; [discriminate|].
    intros [= <-]. apply call_handleDiscovery_holds; [assumption| |].
    + destruct Hw as (H1 & _). unfold Invariant.one_at_a_time in H1.
      destruct (inflight w) as [|t [|t' r]]; [reflexivity| |contradiction].
      destruct H1 as [H1 _]. congruence.
    + rewrite A. destruct Hw as (H1 & _ & _ & _ & H5).
      unfold Invariant.autonomous_inflight, count in *.
      pose proof (Zle_0_nat
        (List.length (filter closure_isAutonomous (inflight w)))).
      lia.
  - destruct (nth_error (sites (ui w)) row); [|discriminate].
    intros [= <-].
    destruct w as [[s l se an au q0 cp c n] inf ev rq]. exact Hw.
  - unfold interval_running.
    destruct (isAutonomous (ui w)); [|discriminate].
    destruct (0 <? nextCycleCountdown (ui w)) eqn:P; [|discriminate].
    apply Z.ltb_lt in P. intros [= <-].
    destruct w as [[s l se an au q0 cp c n] inf ev rq].
    unfold Invariant.holds, Invariant.one_at_a_time,
      Invariant.autonomous_inflight in *.
    simpl in *. destruct Hw as (H1 & H2 & H3 & H4 & H5).
    split; [exact H1|]. bounds.
  - destruct (nth_error (inflight w) i) as [t|] eqn:N; [|discriminate].
    destruct (awaiting t) eqn:Aw; [|discriminate]. intros [= <-].
    destruct w as [[s l se an au q0 cp c n] inf ev rq].
    unfold Invariant.holds, Invariant.one_at_a_time,
      Invariant.autonomous_inflight, handleDiscovery_search in *.
    simpl in *. destruct Hw as (H1 & H2 & H3 & H4 & H5).
    destruct inf as [|t0 [|t1 r]]; [destruct i; discriminate| |contradiction].
    destruct i as [|[|i]]; try discriminate.
    simpl in N. injection N as ->. simpl in *.
    destruct H1 as [-> _]. destruct (closure_isAutonomous t); bounds.
  - destruct (nth_error (inflight w) i) as [t|] eqn:N; [|discriminate].
    destruct (awaiting t) eqn:Aw; [discriminate|]. intros [= <-].
    destruct w as [[s l se an au q0 cp c n] inf ev rq].
    unfold Invariant.holds, Invariant.one_at_a_time,
      Invariant.autonomous_inflight, handleDiscovery_settle,
      handleDiscovery_outcome, merge_discovered, count in *.
    simpl in *. destruct Hw as (H1 & H2 & H3 & H4 & H5).
    destruct inf as [|t0 [|t1 r]]; [destruct i; discriminate| |contradiction].
    destruct i as [|[|i]]; try discriminate.
    simpl in N. injection N as ->. simpl in *.
    rewrite Aw in H1. destruct H1 as [_ ->].
    destruct (Service.performDiscovery _ _ _ _ _) as [newSites srcs|e0];
      destruct (closure_isAutonomous t); simpl in *; split_if; bounds.
Qed.

Lemma autonomous_effect_holds a before w1 w' :
  Invariant.holds w1 ->
  autonomous_effect a before w1 = Some w' -> Invariant.holds w'.
Proof.
  intros Hw. unfold autonomous_effect.
  destruct (same_deps before (ui w1)); [now intros [= <-]|].
  destruct (isAutonomous (ui w1)) eqn:A; [|now intros [= <-]].
  destruct (isSearching (ui w1)) eqn:S; [now intros [= <-]|].
  destruct (nextCycleCountdown (ui w1) =? 0); [|now intros [= <-]].
  simpl. destruct (next_query a (ui w1)) as [nextQuery|]; [|discriminate].
  intros [= <-].
  assert (Hempty : inflight w1 = []).
  { destruct Hw as (H1 & _). unfold Invariant.one_at_a_time in H1.
    destruct (inflight w1) as [|t [|t' r]]; [reflexivity| |contradiction].
    destruct H1 as [H1 _]. congruence. }
  set (w0 := mkWorld
               (addLog (now a)
                  ("Autonomous trigger: Evolving search based on "
                   ++ quoted nextQuery)%string info (ui w1))
               (inflight w1) (nextQuery :: evolved w1) (requested w1)).
  assert (H0 : Invariant.holds w0
               /\ inflight w0 = []
               /\ autoCycleCount (ui w0)
                  + (if isAutonomous (ui w0) then 1 else 0)
                  <= count (evolved w0)).
  { destruct w1 as [[s l se an au q0 cp c n] inf ev rq].
    unfold Invariant.holds, Invariant.one_at_a_time,
      Invariant.autonomous_inflight, count in *.
    subst w0. simpl in *. subst inf. simpl in *.
    destruct Hw as (H1 & H2 & H3 & H4 & H5). rewrite A.
    repeat split; try tauto; rewrite ?length_firstn; try lia. }
  destruct H0 as (Hh & He & Hroom).
  pose proof (call_handleDiscovery_holds a (Some nextQuery) Hh He Hroom)
    as Hcall.
  replace (mkWorld _ _ _ _)
    with (call_handleDiscovery a (Some nextQuery) w0); [exact Hcall|].
  unfold call_handleDiscovery, with_ui. subst w0. simpl.
  destruct (handleDiscovery_begin _ _ _) as [st [t|]]; reflexivity.
Qed.

Lemma run_holds trace :
  forall w w', Invariant.holds w -> run trace w = Some w' ->
               Invariant.holds w'.
Proof.
  induction trace as [|[a e] trace IH]; simpl; intros w w' Hw Hrun.
  - now injection Hrun as <-.
  - destruct (step a e w) as [w1|] eqn:S1; [|discriminate].
    apply (IH w1 w'); [|assumption].
    unfold Loop.step in S1.
    destruct (handle a e w) as [w0|] eqn:H0; [|discriminate].
    eapply autonomous_effect_holds; [|eassumption].
    eapply handle_holds; eassumption.
Qed.

Lemma start_holds : Invariant.holds Loop.start.
Proof.
  unfold Invariant.holds, Invariant.one_at_a_time. simpl.
  repeat split; try lia; discriminate.
Qed.

(** X11. Discovery cycles never overlap.  In every state the component
    reaches, at most one call of [handleDiscovery] is suspended;
    [isSearching] is on exactly while one is, and [isAnalyzing] exactly
    while that call still waits for its one-second timeout. *)
Theorem one_discovery_at_a_time :
  forall (trace : list (Ambient * Event)) (w : World),
    run trace Loop.start = Some w ->
    (List.length (inflight w) <= 1)%nat
    /\ (isSearching (ui w) = true <-> inflight w <> [])
    /\ (isAnalyzing (ui w) = true
        <-> exists t, inflight w = [t] /\ awaiting t = Timeout1000).
Proof.
  intros trace w Hrun.
  destruct (run_holds _ start_holds Hrun) as (H1 & _).
  unfold Invariant.one_at_a_time in H1.
  destruct (inflight w) as [|t [|t' r]]; [| |contradiction].
  - destruct H1 as [-> ->]. repeat split; simpl; try lia;
      try discriminate; try congruence.
    intros (t & H & _). discriminate.
  - destruct H1 as [-> ->]. repeat split; simpl; try lia;
      try discriminate.
    + intros H. exists t. split; [reflexivity|].
      destruct (awaiting t); [reflexivity|discriminate].
    + intros (t0 & [= <-] & ->). reflexivity.
Qed.

(** X12. The countdown stays between 0 and 15 in every state the component
    reaches. *)
Theorem countdown_within_0_15 :
  forall (trace : list (Ambient * Event)) (w : World),
    run trace Loop.start = Some w ->
    0 <= nextCycleCountdown (ui w) <= 15.
Proof.
  intros trace w Hrun.
  now destruct (run_holds _ start_holds Hrun) as (_ & H & _).
Qed.

(** X15. The counter of self-cycles never exceeds the number of queries the
    autonomous effect has handed to [handleDiscovery]: a cycle started by
    hand is not counted, even when the mode is switched on before it
    completes. *)
Theorem self_cycles_counted :
  forall (trace : list (Ambient * Event)) (w : World),
    run trace Loop.start = Some w ->
    0 <= autoCycleCount (ui w) <= count (evolved w).
Proof.
  intros trace w Hrun.
  destruct (run_holds _ start_holds Hrun) as (_ & _ & _ & H4 & H5).
  unfold Invariant.autonomous_inflight, count in *.
  pose proof (Zle_0_nat
    (List.length (filter closure_isAutonomous (inflight w)))).
  lia.
Qed.

End Running.

(** ** The countdown between autonomous cycles *)

Section Countdown.
Import App Loop.

Variable JSON_parse : string -> option JSValue.

Local Abbreviation step := (Loop.step JSON_parse).
Local Abbreviation run := (Loop.run JSON_parse).
Local Abbreviation tick := (fun b : Ambient => (b, TimerTick)).

#[local] Arguments firstn : simpl never.
#[local] Arguments next_query : simpl never.
#[local] Arguments query_or : simpl never.
#[local] Arguments JSString.blank : simpl never.
#[local] Arguments show : simpl never.

Lemma run_app t1 t2 w :
  run (t1 ++ t2) w
  = match run t1 w with
    | Some w1 => run t2 w1
    | None => None
    end.
Proof.
  revert w. induction t1 as [|[a e] t1 IH]; simpl; intros w.
  - reflexivity.
  - destruct (step a e w); [apply IH|reflexivity].
Qed.

Lemma tick_before_expiry b w :
  isAutonomous (ui w) = true ->
  1 < nextCycleCountdown (ui w) ->
  step b TimerTick w
  = Some (with_ui (setNextCycleCountdown (fun p => p - 1) (ui w)) w).
Proof.
  destruct w as [[s l se an au q0 cp c n] inf ev rq]. simpl.
  intros -> Hn. unfold Loop.step, autonomous_effect. simpl.
  unfold interval_running, same_deps. simpl.
  replace (0 <? n) with true by (symmetry; apply Z.ltb_lt; lia).
  simpl.
  replace (n =? n - 1) with false by (symmetry; apply Z.eqb_neq; lia).
  replace (n - 1 =? 0) with false by (symmetry; apply Z.eqb_neq; lia).
  rewrite !andb_false_r. reflexivity.
Qed.

Lemma ticks_run_down ticks :
  forall w,
    isAutonomous (ui w) = true ->
    Z.of_nat (List.length ticks) < nextCycleCountdown (ui w) ->
    run (map tick ticks) w
    = Some (with_ui
              (setNextCycleCountdown
                 (fun p => p - Z.of_nat (List.length ticks)) (ui w)) w).
Proof.
  induction ticks as [|b ticks IH]; intros w Ha Hn.
  - destruct w as [[s l se an au q0 cp c n] inf ev rq]. simpl.
    unfold with_ui, setNextCycleCountdown. simpl. do 3 f_equal. lia.
  - cbn [map run List.length] in *.
    rewrite tick_before_expiry; [|assumption|lia].
    rewrite IH.
    + destruct w as [[s l se an au q0 cp c n] inf ev rq].
      unfold with_ui, setNextCycleCountdown. simpl. do 3 f_equal. lia.
    + destruct w as [[s l se an au q0 cp c n] inf ev rq]. exact Ha.
    + destruct w as [[s l se an au q0 cp c n] inf ev rq]. simpl in *. lia.
Qed.

Lemma next_query_not_blank a st q :
  sites st <> [] -> next_query a st = Some q -> JSString.blank q = false.
Proof.
  unfold next_query. destruct (sites st) as [|first rest] eqn:E;
    [contradiction|].
  intros _.
  destruct (site_name (nth _ _ _)) as [| | | |name| |]; try discriminate.
  pose proof (Nat.mod_upper_bound (pick_strategy a) 4) as Hk.
  remember (pick_strategy a mod 4)%nat as k eqn:Ek. clear Ek.
  destruct k as [|[|[|[|k]]]]; try lia; intros [= <-]; reflexivity.
Qed.

Lemma tick_at_expiry a w q :
  isAutonomous (ui w) = true ->
  isSearching (ui w) = false ->
  nextCycleCountdown (ui w) = 1 ->
  next_query a (ui w) = Some q ->
  JSString.blank q = false ->
  exists w',
    step a TimerTick w = Some w'
    /\ evolved w' = q :: evolved w
    /\ inflight w'
       = inflight w
         ++ [mkInFlight q (map normalized_name (sites (ui w))) true
               Timeout1000]
    /\ isSearching (ui w') = true
    /\ nextCycleCountdown (ui w') = 0
    /\ sites (ui w') = sites (ui w)
    /\ requested w' = requested w.
Proof.
  destruct w as [[s l se an au q0 cp c n] inf ev rq].
  cbn [ui isAutonomous isSearching nextCycleCountdown sites inflight
         evolved requested].
  intros -> -> -> Hq Hb.
  assert (Hqo : query_or (Some q) q0 = q).
  { destruct q; [discriminate|reflexivity]. }
  unfold Loop.step, autonomous_effect. simpl.
  replace (next_query a _) with (Some q) by (rewrite <- Hq; reflexivity).
  unfold call_handleDiscovery, handleDiscovery_begin. simpl.
  rewrite Hqo, Hb. simpl.
  eexists. split; [reflexivity|].
  destruct (0 <? count (map normalized_name s)); simpl; repeat split.
Qed.

Lemma tick_at_expiry_throws a w :
  isAutonomous (ui w) = true ->
  isSearching (ui w) = false ->
  nextCycleCountdown (ui w) = 1 ->
  next_query a (ui w) = None ->
  step a TimerTick w = None.
Proof.
  destruct w as [[s l se an au q0 cp c n] inf ev rq].
  cbn [ui isAutonomous isSearching nextCycleCountdown].
  intros -> -> -> Hq.
  unfold Loop.step, autonomous_effect. simpl.
  replace (next_query a _) with (@None string)
    by (rewrite <- Hq; reflexivity).
  reflexivity.
Qed.

Lemma tick_at_expiry_blank a w q :
  isAutonomous (ui w) = true ->
  isSearching (ui w) = false ->
  nextCycleCountdown (ui w) = 1 ->
  next_query a (ui w) = Some q ->
  JSString.blank q = true ->
  exists w',
    step a TimerTick w = Some w'
    /\ evolved w' = q :: evolved w
    /\ inflight w' = inflight w
    /\ isSearching (ui w') = false
    /\ nextCycleCountdown (ui w') = 0
    /\ sites (ui w) = []
    /\ requested w' = requested w.
Proof.
  intros Ha Hs Hn Hq Hb.
  assert (Hempty : sites (ui w) = []).
  { destruct (sites (ui w)) as [|x r] eqn:E; [reflexivity|].
    assert (Hne : sites (ui w) <> []) by (rewrite E; discriminate).
    rewrite (@next_query_not_blank a (ui w) q Hne Hq) in Hb.
    discriminate. }
  destruct w as [[s l se an au q0 cp c n] inf ev rq].
  cbn [ui isAutonomous isSearching nextCycleCountdown sites inflight
         evolved requested] in *.
  subst au se n s.
  assert (Hq0 : q0 = q) by (unfold next_query in Hq; simpl in Hq; congruence).
  subst q0.
  assert (Hqo : JSString.blank (query_or (Some q) q) = true).
  { destruct q; exact Hb. }
  unfold Loop.step, autonomous_effect. simpl.
  replace (next_query a _) with (Some q) by (rewrite <- Hq; reflexivity).
  unfold call_handleDiscovery, handleDiscovery_begin. simpl.
  rewrite Hqo. simpl.
  eexists. split; [reflexivity|]. repeat split.
Qed.

(** X13. The wait between autonomous cycles.  With the mode on, no cycle
    running and the countdown at n+1, the first n ticks change nothing
    but the countdown.  What the tick after them does depends on the
    query the effect builds.  If building it throws (the record picked
    has no string as [site_name]) the component is lost.  If the query is
    blank, which needs an empty registry, [handleDiscovery] returns at
    once and no cycle starts.  Otherwise the effect hands the query to
    [handleDiscovery], which suspends on its timeout with the registry's
    keys as known patterns.  With a registry that is not empty the query
    is never blank. *)
Theorem next_cycle_after_countdown :
  forall (ticks : list Ambient) (a : Ambient) (w : World),
    isAutonomous (ui w) = true ->
    isSearching (ui w) = false ->
    nextCycleCountdown (ui w) = Z.of_nat (List.length ticks) + 1 ->
    (forall k,
        run (map tick (firstn k ticks)) w
        = Some (with_ui
                  (setNextCycleCountdown
                     (fun p => p - Z.of_nat (List.length (firstn k ticks)))
                     (ui w)) w))
    /\ match next_query a (ui w) with
       | None => run (map tick ticks ++ [(a, TimerTick)]) w = None
       | Some q =>
           exists w',
             run (map tick ticks ++ [(a, TimerTick)]) w = Some w'
             /\ evolved w' = q :: evolved w
             /\ nextCycleCountdown (ui w') = 0
             /\ if JSString.blank q then
                  sites (ui w) = []
                  /\ inflight w' = inflight w
                  /\ isSearching (ui w') = false
                else
                  inflight w'
                  = inflight w
                    ++ [mkInFlight q (map normalized_name (sites (ui w)))
                          true Timeout1000]
                  /\ isSearching (ui w') = true
       end
    /\ (sites (ui w) <> [] ->
        forall q, next_query a (ui w) = Some q -> JSString.blank q = false).
Proof.
  intros ticks a w Ha Hs Hn.
  split; [|split].
  - intros k. apply ticks_run_down; [assumption|].
    rewrite length_firstn. lia.
  - rewrite run_app, ticks_run_down; [|assumption|lia].
    set (w1 := with_ui _ w).
    assert (H1 : isAutonomous (ui w1) = true
                 /\ isSearching (ui w1) = false
                 /\ nextCycleCountdown (ui w1) = 1
                 /\ next_query a (ui w1) = next_query a (ui w)
                 /\ evolved w1 = evolved w
                 /\ inflight w1 = inflight w
                 /\ sites (ui w1) = sites (ui w)).
    { subst w1. destruct w as [[s l se an au q0 cp c n] inf ev rq].
      simpl in *. repeat split; try assumption. lia. }
    destruct H1 as (Ha1 & Hs1 & Hn1 & Hq1 & He1 & Hi1 & Hsi1).
    rewrite <- Hq1, <- He1, <- Hi1, <- Hsi1.
    destruct (next_query a (ui w1)) as [q|] eqn:Q.
    + destruct (JSString.blank q) eqn:B.
      * destruct (@tick_at_expiry_blank a w1 q Ha1 Hs1 Hn1 Q B)
          as (w' & S' & E1 & E2 & E3 & E4 & E5 & _).
        exists w'. cbn [Loop.run]. rewrite S'. repeat split; assumption.
      * destruct (@tick_at_expiry a w1 q Ha1 Hs1 Hn1 Q B)
          as (w' & S' & E1 & E2 & E3 & E4 & _).
        exists w'. cbn [Loop.run]. rewrite S'. repeat split; assumption.
    + cbn [Loop.run]. now rewrite (@tick_at_expiry_throws a w1 Ha1 Hs1 Hn1 Q).
  - intros Hne q Hq. eapply next_query_not_blank; eassumption.
Qed.

(** X14. A blank query stalls the loop.  In a state with the mode off,
    no call of [handleDiscovery] running or suspended, the countdown at
    0, an empty registry and a query of white space only, switching the
    mode on makes the effect call [handleDiscovery], which returns at
    once; no cycle starts and no request is sent, and from then on no
    event but another click on the mode button can happen: the loop does
    not proceed by itself. *)
Theorem blank_query_stalls_loop :
  forall (a : Ambient) (w : World),
    isAutonomous (ui w) = false ->
    isSearching (ui w) = false ->
    inflight w = [] ->
    nextCycleCountdown (ui w) = 0 ->
    sites (ui w) = [] ->
    JSString.blank (searchQuery (ui w)) = true ->
    exists w',
      step a ClickAutoMode w = Some w'
      /\ isAutonomous (ui w') = true
      /\ isSearching (ui w') = false
      /\ inflight w' = []
      /\ requested w' = requested w
      /\ evolved w' = searchQuery (ui w) :: evolved w
      /\ forall a' e w'',
           step a' e w' = Some w'' -> e = ClickAutoMode.
Proof.
  intros a w.
  destruct w as [[s l se an au q0 cp c n] inf ev rq]. simpl.
  intros -> -> -> -> -> Hb.
  unfold Loop.step, autonomous_effect. simpl.
  unfold call_handleDiscovery, handleDiscovery_begin. simpl.
  assert (Hqo : JSString.blank (query_or (Some q0) q0) = true).
  { destruct q0; assumption. }
  rewrite Hqo. simpl.
  eexists. split; [reflexivity|]. repeat split.
  intros a' e w''. destruct e as [|q| |row| |i|i gen env]; simpl;
    try discriminate; try reflexivity.
  - destruct row; discriminate.
  - destruct i; discriminate.
  - destruct i; discriminate.
Qed.

End Countdown.

Lemma next_cycle_after_countdown_witness :
  exists w',
    Loop.run Sample.parse
      (map (fun b => (b, TimerTick))
         (repeat (Sample.at_ "10:00:10") 14)
       ++ [(Sample.at_ "10:00:18", TimerTick)])
      Sample.waiting
    = Some w'
    /\ evolved w' = ["link alternatif Slot88.com"%string]
    /\ isSearching (ui w') = true.
Proof.
  destruct (@next_cycle_after_countdown Sample.parse
              (repeat (Sample.at_ "10:00:10") 14) (Sample.at_ "10:00:18")
              Sample.waiting eq_refl eq_refl eq_refl)
    as (_ & (w' & Hrun & Hev & _ & _ & Hs) & _).
  exists w'. repeat split; assumption.
Defined.

Lemma blank_query_stalls_loop_witness :
  exists w',
    Loop.step Sample.parse (Sample.at_ "09:59:30") ClickAutoMode
      Sample.emptied_query = Some w'
    /\ isAutonomous (ui w') = true
    /\ inflight w' = []
    /\ evolved w' = ["  "%string].
Proof.
  destruct (@blank_query_stalls_loop Sample.parse (Sample.at_ "09:59:30")
              Sample.emptied_query
              eq_refl eq_refl eq_refl eq_refl eq_refl eq_refl)
    as (w' & H1 & H2 & _ & H4 & _ & H6 & _).
  exists w'. repeat split; assumption.
Defined.

(** ** The exported list *)

Section ExportFacts.
Import App ExportTxt.

Local Abbreviation kept :=
  (filter (fun s => negb (SiteStatus_eqb (status s) FALSE_POSITIVE))).
Local Abbreviation no_space :=
  (JSString.all_chars (fun c => negb (Ascii.eqb c " "))).

Lemma append_space_not_empty (x z : string) :
  (x ++ String " " z)%string <> EmptyString.
Proof. destruct x; discriminate. Qed.

Lemma join_empty (l : list string) :
  Service.join " " l = EmptyString <-> l = [] \/ l = [EmptyString].
Proof.
  destruct l as [|x [|y r]].
  - simpl. tauto.
  - simpl. split.
    + intros ->. now right.
    + intros [H|[= ->]]; [discriminate|reflexivity].
  - change (Service.join " " (x :: y :: r))
      with (x ++ String " " (Service.join " " (y :: r)))%string.
    split.
    + intros H. now apply append_space_not_empty in H.
    + intros [H|H]; discriminate.
Qed.

Lemma split_word (w : string) :
  no_space w = true -> split " " w = [w].
Proof.
  induction w as [|c r IH]; simpl.
  - reflexivity.
  - intros H. apply andb_prop in H. destruct H as [Hc Hr].
    apply negb_true_iff in Hc. rewrite Hc, (IH Hr). reflexivity.
Qed.

Lemma split_word_then (w rest : string) :
  no_space w = true ->
  split " " (w ++ String " " rest) = w :: split " " rest.
Proof.
  induction w as [|c r IH]; simpl.
  - reflexivity.
  - intros H. apply andb_prop in H. destruct H as [Hc Hr].
    apply negb_true_iff in Hc. rewrite Hc, (IH Hr). reflexivity.
Qed.

Lemma split_join (l : list string) :
  l <> [] -> Forall (fun w => no_space w = true) l ->
  split " " (Service.join " " l) = l.
Proof.
  induction l as [|x [|y r] IH]; intros Hne Hall.
  - contradiction.
  - simpl. apply split_word. now inversion Hall.
  - change (Service.join " " (x :: y :: r))
      with (x ++ String " " (Service.join " " (y :: r)))%string.
    inversion Hall as [|? ? Hx Hrest]; subst.
    rewrite split_word_then by assumption.
    f_equal. apply IH; [discriminate|assumption].
Qed.

Lemma a_z_0_9_no_space (w : string) :
  JSString.all_chars JSString.is_a_z_0_9 w = true -> no_space w = true.
Proof.
  induction w as [|c r IH]; simpl.
  - reflexivity.
  - intros H. apply andb_prop in H. destruct H as [Hc Hr].
    rewrite (IH Hr), andb_true_r. apply negb_true_iff.
    destruct (Ascii.eqb c " ") eqn:E; [|reflexivity].
    apply Ascii.eqb_eq in E. subst c. discriminate.
Qed.

(** X17. The exported list can be read back.  When every record of the
    registry is one the application made and at least one is not a false
    positive, splitting the text of [getCleanedList] at the spaces gives
    exactly the keys of the records that are not FALSE_POSITIVE, in the
    order of the registry; [downloadTxt] hands over that same text. *)
Theorem exported_list_reads_back :
  forall (iso now : string) (st : State),
    Forall app_made (sites st) ->
    kept (sites st) <> [] ->
    split " " (getCleanedList st) = map normalized_name (kept (sites st))
    /\ blob_text (fst (downloadTxt iso now st)) = getCleanedList st
    /\ forall k,
         In k (split " " (getCleanedList st))
         <-> exists s,
               In s (sites st) /\ normalized_name s = k
               /\ status s <> FALSE_POSITIVE.
Proof.
  intros iso now st Hmade Hne.
  assert (Hsplit : split " " (getCleanedList st)
                   = map normalized_name (kept (sites st))).
  { unfold getCleanedList. apply split_join.
    - destruct (kept (sites st)); [contradiction|discriminate].
    - apply Forall_map. apply Forall_forall. intros s Hs.
      apply filter_In in Hs. destruct Hs as [Hs _].
      apply a_z_0_9_no_space.
      now apply (proj1 (Forall_forall _ _) Hmade). }
  split; [exact Hsplit|]. split; [reflexivity|].
  intros k. rewrite Hsplit, in_map_iff. split.
  - intros (s & <- & Hs). apply filter_In in Hs. destruct Hs as [Hs Hf].
    exists s. repeat split; try assumption.
    intros E. rewrite E in Hf. discriminate.
  - intros (s & Hs & <- & Hf). exists s. split; [reflexivity|].
    apply filter_In. split; [assumption|].
    destruct (status s); try reflexivity. contradiction.
Qed.

(** X18. When the clipboard button does nothing, and what the two
    buttons report.  [copyToClipboard] returns without touching the
    clipboard exactly when no record is exported or the only exported
    key is the empty string; otherwise it asks the clipboard to take the
    text of [getCleanedList].  The number both buttons log is the size of
    the whole registry: the exported records and the false positives
    left out together. *)
Theorem copy_skipped_and_counts :
  forall (iso now : string) (written : bool) (st0 st : State),
    (copyToClipboard_begin st = None
     <-> map normalized_name (kept (sites st)) = []
         \/ map normalized_name (kept (sites st)) = [EmptyString])
    /\ (forall content,
           copyToClipboard_begin st = Some content ->
           content = getCleanedList st)
    /\ count (sites st)
       = count (kept (sites st))
         + count (filter (fun s => SiteStatus_eqb (status s) FALSE_POSITIVE)
                    (sites st))
    /\ hd_error (logs (snd (downloadTxt iso now st)))
       = Some (mkLog now
                 ("Exported " ++ show (count (sites st))
                  ++ " sites to filter.txt")%string success)
    /\ hd_error (logs (copyToClipboard_settle now true st0 st))
       = Some (mkLog now
                 ("Copied " ++ show (count (sites st0))
                  ++ " keywords to clipboard.")%string success)
    /\ sites (snd (downloadTxt iso now st)) = sites st
    /\ sites (copyToClipboard_settle now written st0 st) = sites st.
Proof.
  intros iso now written st0 st. repeat split.
  - unfold copyToClipboard_begin. intros H. apply join_empty.
    fold (getCleanedList st). now destruct (getCleanedList st).
  - intros H. apply join_empty in H. unfold copyToClipboard_begin.
    fold (getCleanedList st) in H. now rewrite H.
  - unfold copyToClipboard_begin. intros content.
    destruct (getCleanedList st); [discriminate|]. now intros [= <-].
  - unfold count. rewrite <- Nat2Z.inj_add. f_equal.
    induction (sites st) as [|s r IH]; simpl.
    + reflexivity.
    + destruct (SiteStatus_eqb (status s) FALSE_POSITIVE); simpl; lia.
  - now destruct written.
Qed.

End ExportFacts.

Lemma exported_list_reads_back_witness :
  ExportTxt.split " " (ExportTxt.getCleanedList Sample.reviewed)
  = ["gacor77"; "maxwinvip"]%string.
Proof.
  apply (@exported_list_reads_back "2024-05-01T10:00:00.000Z" "10:00:00"
           Sample.reviewed).
  - repeat constructor; discriminate.
  - discriminate.
Defined.

(** ** Sample runs for the invariants *)

Lemma one_discovery_at_a_time_witness :
  exists w,
    Loop.run Sample.parse Sample.mid_cycle Loop.start = Some w
    /\ (List.length (inflight w) <= 1)%nat
    /\ (isSearching (ui w) = true <-> inflight w <> []).
Proof.
  destruct (Loop.run Sample.parse Sample.mid_cycle Loop.start)
    as [w|] eqn:E.
  - exists w. split; [reflexivity|].
    destruct (@one_discovery_at_a_time Sample.parse Sample.mid_cycle w E)
      as (H1 & H2 & _).
    split; assumption.
  - vm_compute in E. discriminate.
Defined.

Lemma countdown_within_0_15_witness :
  exists w,
    Loop.run Sample.parse Sample.until_switch_off Loop.start = Some w
    /\ 0 <= nextCycleCountdown (ui w) <= 15.
Proof.
  destruct (Loop.run Sample.parse Sample.until_switch_off Loop.start)
    as [w|] eqn:E.
  - exists w. split; [reflexivity|].
    exact (@countdown_within_0_15 Sample.parse Sample.until_switch_off w E).
  - vm_compute in E. discriminate.
Defined.

Lemma self_cycles_counted_witness :
  exists w,
    Loop.run Sample.parse Sample.switch_off_early Loop.start = Some w
    /\ 0 <= autoCycleCount (ui w) <= App.count (evolved w).
Proof.
  destruct (Loop.run Sample.parse Sample.switch_off_early Loop.start)
    as [w|] eqn:E.
  - exists w. split; [reflexivity|].
    exact (@self_cycles_counted Sample.parse Sample.switch_off_early w E).
  - vm_compute in E. discriminate.
Defined.

Lemma running_registry_toggle_twice_witness :
  exists w,
    Loop.run Sample.parse Sample.until_switch_off Loop.start = Some w
    /\ App.toggleStatus "q1w2e3r4t"
         (App.toggleStatus "q1w2e3r4t" (sites (ui w)))
       = sites (ui w).
Proof.
  destruct (Loop.run Sample.parse Sample.until_switch_off Loop.start)
    as [w|] eqn:E.
  - exists w. split; [reflexivity|].
    now destruct (@running_registry_toggle_twice Sample.parse
                    Sample.until_switch_off w "q1w2e3r4t" E)
      as (_ & _ & H).
  - vm_compute in E. discriminate.
Defined.

(** ** The known patterns a request carries *)

Section KnownPatterns.
Import App Loop.

Variable JSON_parse : string -> option JSValue.

Local Abbreviation handle := (Loop.handle JSON_parse).
Local Abbreviation step := (Loop.step JSON_parse).
Local Abbreviation run := (Loop.run JSON_parse).
Local Abbreviation names := (map normalized_name).

Lemma call_handleDiscovery_patterns a q w :
  Invariant.patterns_current w ->
  Invariant.patterns_current (call_handleDiscovery a q w).
Proof.
  intros H t. destruct (call_handleDiscovery_facts a q w) as (_ & HS & _).
  rewrite HS. revert t. clear HS.
  unfold call_handleDiscovery, handleDiscovery_begin.
  destruct (JSString.blank _ || isSearching (ui w))%bool; simpl.
  - exact H.
  - intros t Hin. apply in_app_or in Hin.
    destruct Hin as [Hin|[<-|[]]]; [now apply H|reflexivity].
Qed.

Lemma In_replace_at (A : Type) (y : A) (xs : list A) :
  forall i x, In x (replace_at i y xs) -> In x xs \/ x = y.
Proof.
  induction xs as [|x0 xs IH]; intros [|i] x; simpl; try tauto.
  - intros [<-|H]; auto.
  - intros [<-|H]; auto. destruct (IH _ _ H); auto.
Qed.

Lemma handle_patterns a e w w1 :
  Invariant.one_at_a_time w ->
  Invariant.patterns_current w ->
  handle a e w = Some w1 -> Invariant.patterns_current w1.
Proof.
  intros Hone Hw. destruct e as [|q| |row| |i|i gen env]; simpl.
  - intros [= <-]. intros t Hin. simpl in *.
    rewrite (Hw t Hin). now destruct (negb (isAutonomous (ui w))).
  - destruct (isAutonomous (ui w)); [discriminate|]. intros [= <-].
    exact Hw.
  - destruct (isAutonomous (ui w) || isSearching (ui w))%bool;
      [discriminate|].
    intros [= <-]. now apply call_handleDiscovery_patterns.
  - destruct (nth_error (sites (ui w)) row) as [site|]; [|discriminate].
    intros [= <-]. intros t Hin. simpl in *.
    rewrite toggleStatus_names. now apply Hw.
  - destruct (interval_running (ui w)); [|discriminate].
    intros [= <-]. exact Hw.
  - destruct (nth_error (inflight w) i) as [t0|] eqn:N; [|discriminate].
    destruct (awaiting t0); [|discriminate]. intros [= <-].
    intros t Hin. simpl in *.
    apply In_replace_at in Hin. destruct Hin as [Hin| ->].
    + now apply Hw.
    + simpl. apply Hw. eapply nth_error_In. eassumption.
  - destruct (nth_error (inflight w) i) as [t0|] eqn:N; [|discriminate].
    destruct (awaiting t0); [discriminate|]. intros [= <-].
    intros t Hin. simpl in Hin. exfalso.
    unfold Invariant.one_at_a_time in Hone.
    destruct (inflight w) as [|t1 [|t2 r]]; [destruct i; discriminate|
                                             |contradiction].
    destruct i as [|[|i]]; try discriminate. exact Hin.
Qed.

Lemma autonomous_effect_patterns a before w1 w' :
  Invariant.patterns_current w1 ->
  autonomous_effect a before w1 = Some w' -> Invariant.patterns_current w'.
Proof.
  intros Hw. unfold autonomous_effect.
  destruct (same_deps before (ui w1)); [now intros [= <-]|].
  destruct (_ && _)%bool; [|now intros [= <-]].
  destruct (next_query a (ui w1)) as [nextQuery|]; [|discriminate].
  intros [= <-].
  match goal with
  | |- Invariant.patterns_current
         (mkWorld (ui ?c) (inflight ?c) _ _) =>
      assert (H : Invariant.patterns_current c)
  end.
  { apply call_handleDiscovery_patterns. exact Hw. }
  exact H.
Qed.

Lemma run_patterns trace :
  forall w w',
    Invariant.holds w -> Invariant.patterns_current w ->
    run trace w = Some w' -> Invariant.patterns_current w'.
Proof.
  induction trace as [|[a e] trace IH]; simpl; intros w w' Hh Hp Hrun.
  - now injection Hrun as <-.
  - destruct (step a e w) as [w1|] eqn:S1; [|discriminate].
    assert (Hh1 : Invariant.holds w1).
    { eapply (@run_holds JSON_parse [(a, e)]); [exact Hh|].
      simpl. now rewrite S1. }
    apply (IH w1 w'); try assumption.
    unfold Loop.step in S1.
    destruct (handle a e w) as [w0|] eqn:H0; [|discriminate].
    eapply autonomous_effect_patterns; [|eassumption].
    eapply handle_patterns; try eassumption. apply Hh.
Qed.

(** X10. The context a request carries is up to date.  In every state the
    component reaches, the known patterns held by a suspended call of
    [handleDiscovery] are the keys of the registry as it stands, so the
    request sent after the timeout names the first twenty keys of the
    registry of that moment. *)
Theorem known_patterns_current :
  forall (trace : list (Ambient * Event)) (w : World) (t : InFlight),
    run trace Loop.start = Some w ->
    In t (inflight w) ->
    knownPatterns t = names (sites (ui w))
    /\ Service.contents (queryToUse t) (knownPatterns t)
       = Service.contents (queryToUse t)
           (firstn 20 (names (sites (ui w)))).
Proof.
  intros trace w t Hrun Hin.
  assert (H : knownPatterns t = names (sites (ui w))).
  { eapply run_patterns; try eassumption.
    - apply start_holds.
    - intros t0 []. }
  split; [exact H|].
  rewrite H. unfold Service.contents. f_equal. f_equal. f_equal.
  unfold Service.contextInstruction.
  rewrite firstn_firstn, Nat.min_id.
  destruct (names (sites (ui w))); reflexivity.
Qed.

End KnownPatterns.

Lemma known_patterns_current_witness :
  exists w t,
    Loop.run Sample.parse (Sample.until_switch_off ++ firstn 3 Sample.by_hand)
      Loop.start = Some w
    /\ inflight w = [t]
    /\ knownPatterns t = ["slot88vip"%string].
Proof.
  destruct (Loop.run Sample.parse
              (Sample.until_switch_off ++ firstn 3 Sample.by_hand)
              Loop.start) as [w|] eqn:E.
  - destruct (inflight w) as [|t r] eqn:I.
    + vm_compute in E. injection E as <-. discriminate.
    + exists w, t.
      destruct (@known_patterns_current Sample.parse _ w t E) as [H _].
      * rewrite I. now left.
      * vm_compute in E. injection E as <-.
        injection I as <- <-. repeat split.
  - vm_compute in E. discriminate.
Defined.

(** ** The log stream, the two buttons included *)

Section DeskFacts.
Import App ExportTxt.

Variable JSON_parse : string -> option JSValue.

#[local] Arguments firstn : simpl never.
#[local] Arguments show : simpl never.

(** The buttons write [logs] and [isCopied] only. *)
Lemma buttons_hold a e d d1 :
  (forall e0, e <> Component e0) ->
  Invariant.holds (world d) ->
  Desk.handle JSON_parse a e d = Some d1 ->
  Invariant.holds (world d1).
Proof.
  intros Hne Hw.
  destruct d as [[[s l se an au q0 cp c n] inf ev rq] cl tm].
  unfold Invariant.holds, Invariant.one_at_a_time,
    Invariant.autonomous_inflight in *.
  simpl in Hw. destruct Hw as (H1 & H2 & H3 & H4 & H5).
  destruct e as [e0|iso| |i written|]; simpl.
  - now destruct (Hne e0).
  - destruct s; [discriminate|]. intros [= <-]. simpl.
    rewrite length_firstn. repeat split; try tauto; lia.
  - destruct s; [discriminate|].
    destruct (copyToClipboard_begin _); intros [= <-]; simpl;
      repeat split; try tauto; lia.
  - destruct (nth_error cl i) as [closure|]; [|discriminate].
    intros [= <-]. destruct written; simpl; rewrite length_firstn;
      repeat split; try tauto; lia.
  - destruct tm; [discriminate|]. intros [= <-]. simpl.
    repeat split; try tauto; lia.
Qed.

Lemma desk_step_holds a e d d1 :
  Invariant.holds (world d) ->
  Desk.step JSON_parse a e d = Some d1 ->
  Invariant.holds (world d1).
Proof.
  intros Hw. unfold Desk.step.
  destruct (Desk.handle JSON_parse a e d) as [d0|] eqn:H0; [|discriminate].
  destruct (Loop.autonomous_effect a (ui (world d)) (world d0))
    as [w'|] eqn:E; [|discriminate].
  intros [= <-]. simpl.
  refine (@autonomous_effect_holds JSON_parse a (ui (world d)) (world d0)
            w' _ E).
  destruct e as [e0|iso| |i written|].
  - simpl in H0.
    destruct (Loop.handle JSON_parse a e0 (world d)) as [w1|] eqn:L;
      [|discriminate].
    injection H0 as <-. simpl. eapply handle_holds; eassumption.
  - eapply buttons_hold; try eassumption. discriminate.
  - eapply buttons_hold; try eassumption. discriminate.
  - eapply buttons_hold; try eassumption. discriminate.
  - eapply buttons_hold; try eassumption. discriminate.
Qed.

Lemma desk_run_holds trace :
  forall d d',
    Invariant.holds (world d) ->
    Desk.run JSON_parse trace d = Some d' ->
    Invariant.holds (world d').
Proof.
  induction trace as [|[a e] trace IH]; simpl; intros d d' Hd Hrun.
  - now injection Hrun as <-.
  - destruct (Desk.step JSON_parse a e d) as [d1|] eqn:S1; [|discriminate].
    apply (IH d1 d'); [|assumption].
    eapply desk_step_holds; eassumption.
Qed.

(** X16. The log stream holds at most 50 entries in every state the
    component reaches, whichever of its handlers wrote to it: the
    discovery cycle, the autonomous effect, the mode button, and the
    export and clipboard buttons. *)
Theorem logs_bounded_running :
  forall (trace : list (Ambient * DeskEvent)) (d : Desk),
    Desk.run JSON_parse trace Desk.start = Some d ->
    (List.length (logs (ui (world d))) <= 50)%nat.
Proof.
  intros trace d Hrun.
  assert (H : Invariant.holds (world d)).
  { eapply desk_run_holds; [|eassumption]. apply start_holds. }
  now destruct H as (_ & _ & H & _).
Qed.

End DeskFacts.

Lemma logs_bounded_running_witness :
  exists d,
    Desk.run Sample.parse Sample.with_buttons Desk.start = Some d
    /\ (List.length (logs (ui (world d))) <= 50)%nat
    /\ option_map message (hd_error (logs (ui (world d))))
       = Some "Copied 1 keywords to clipboard."%string.
Proof.
  destruct (Desk.run Sample.parse Sample.with_buttons Desk.start)
    as [d|] eqn:E.
  - exists d. split; [reflexivity|]. split.
    + exact (@logs_bounded_running Sample.parse Sample.with_buttons d E).
    + vm_compute in E. injection E as <-. reflexivity.
  - vm_compute in E. discriminate.
Defined.
